(** * jquery.tagCloud.js: the banding of weighted tags

    A shallow embedding of [$.fn.tagCloud] (src/scripts/jquery.tagCloud.js)
    for one matched container, with [settings.randomWeights] off.  The part
    "The whole call" adds the rest of the function: [$.extend] of the
    defaults, [this.each] over containers that share the tags of one
    document, and the random weights, with [Math.random] as a stream of
    values.

    Conventions of the embedding.
    - A JavaScript Number is a [number]: NaN, the two infinities, or a finite
      value.  Finite values are exact rationals, and the sign of zero is left
      out (no operation of the plugin observes it).  The Numbers of the code
      are binary64 doubles: the two agree on a run in which every value met
      is a double, whole numbers up to 2^53 in magnitude among them, and
      they part where the code rounds or overflows.  A property that
      depends on the value of a boundary is therefore stated for runs that
      stay in the range where it also holds of the doubles; its statement
      says which.  [Binary64] has the arithmetic of lines 103-135 once
      more, on the binary64 floats of the kernel, for the inputs on which
      the rounding decides.
    - A string is a sequence of code units below 256.
    - The class attribute of a tag is kept as what the plugin reads and
      writes of it: whether the tag carries [settings.processedClassName]
      (taken to be one class name) and the list of the indices [j] with
      which the plugin has called [addClass(settings.classes[j] ...)] on
      the tag, oldest first.  The attribute holds the class of band [j]
      when [j] is in the list, once however often it was added. *)

From Stdlib Require Import ZArith QArith Qround Lqa Lia List String Ascii Bool.
From Stdlib Require Import Permutation.
From Stdlib Require DecimalString DecimalNat.
From Corelib Require PrimFloat Uint63Axioms.
Import ListNotations.
Import (notations) PrimFloat.

Local Open Scope Q_scope.

(** ** Numbers *)

Module Number.

Inductive number : Type :=
| NaN
| PosInf
| NegInf
| Fin (q : Q).

Definition ofNat (n : nat) : number := Fin (inject_Z (Z.of_nat n)).

Definition neg (a : number) : number :=
  match a with
  | NaN => NaN
  | PosInf => NegInf
  | NegInf => PosInf
  | Fin q => Fin (- q)
  end.

(** [a + b] *)
Definition add (a b : number) : number :=
  match a, b with
  | NaN, _ | _, NaN => NaN
  | PosInf, NegInf | NegInf, PosInf => NaN
  | PosInf, _ | _, PosInf => PosInf
  | NegInf, _ | _, NegInf => NegInf
  | Fin p, Fin q => Fin (p + q)
  end.

(** [a - b] *)
Definition sub (a b : number) : number :=
  match a, b with
  | NaN, _ | _, NaN => NaN
  | PosInf, PosInf | NegInf, NegInf => NaN
  | PosInf, _ | _, NegInf => PosInf
  | NegInf, _ | _, PosInf => NegInf
  | Fin p, Fin q => Fin (p - q)
  end.

(** The sign of a finite value, used where an infinity is scaled. *)
Definition scaleInf (inf : number) (q : Q) : number :=
  match Qcompare q 0 with
  | Eq => NaN
  | Gt => inf
  | Lt => neg inf
  end.

(** [a * b] *)
Definition mul (a b : number) : number :=
  match a, b with
  | NaN, _ | _, NaN => NaN
  | PosInf, PosInf | NegInf, NegInf => PosInf
  | PosInf, NegInf | NegInf, PosInf => NegInf
  | Fin p, Fin q => Fin (p * q)
  | Fin p, inf | inf, Fin p => scaleInf inf p
  end.

(** [a / b]; a zero divisor is the positive zero. *)
Definition div (a b : number) : number :=
  match a, b with
  | NaN, _ | _, NaN => NaN
  | Fin _, PosInf | Fin _, NegInf => Fin 0
  | Fin p, Fin q =>
      match Qcompare q 0 with
      | Eq => scaleInf PosInf p
      | _ => Fin (p / q)
      end
  | PosInf, Fin q | NegInf, Fin q =>
      match Qcompare q 0 with
      | Lt => neg a
      | _ => a
      end
  | _, _ => NaN
  end.

(** [a <= b]: false as soon as one side is NaN. *)
Definition le (a b : number) : bool :=
  match a, b with
  | NaN, _ | _, NaN => false
  | NegInf, _ | _, PosInf => true
  | PosInf, _ | _, NegInf => false
  | Fin p, Fin q => Qle_bool p q
  end.

(** [a >= b] *)
Definition ge (a b : number) : bool := le b a.

(** [a < b] *)
Definition lt (a b : number) : bool :=
  match a, b with
  | NaN, _ | _, NaN => false
  | _, _ => negb (le b a)
  end.

(** [a == b] on Numbers: never true of NaN. *)
Definition eqb (a b : number) : bool := le a b && le b a.

(** The two denote one value, NaN included; [Fin] up to [Qeq]. *)
Definition eqv (a b : number) : Prop :=
  match a, b with
  | NaN, NaN | PosInf, PosInf | NegInf, NegInf => True
  | Fin p, Fin q => p == q
  | _, _ => False
  end.

Definition finite (a : number) : Prop := exists q, a = Fin q.

Definition max2 (a b : number) : number :=
  match a, b with
  | NaN, _ | _, NaN => NaN
  | _, _ => if le a b then b else a
  end.

Definition min2 (a b : number) : number :=
  match a, b with
  | NaN, _ | _, NaN => NaN
  | _, _ => if le a b then a else b
  end.

(** [Math.max.apply(Math, xs)]: -Infinity without arguments, NaN as soon as
    one argument is NaN. *)
Definition Math_max (xs : list number) : number := fold_left max2 xs NegInf.

(** [Math.min.apply(Math, xs)] *)
Definition Math_min (xs : list number) : number := fold_left min2 xs PosInf.

End Number.
Export Number.

(** ** Strings to numbers *)

Module Parse.

Local Open Scope Z_scope.

(** StrWhiteSpaceChar, as far as it lies below 256: TAB, LF, VT, FF, CR,
    SP and NBSP. *)
Definition isStrWhiteSpaceChar (c : ascii) : bool :=
  let n := Z.of_N (N_of_ascii c) in
  (9 <=? n) && (n <=? 13) || (n =? 32) || (n =? 160).

(** The value of [c] as a digit of the given radix. *)
Definition digitOf (radix : Z) (c : ascii) : option Z :=
  let n := Z.of_N (N_of_ascii c) in
  let v := if (48 <=? n) && (n <=? 57) then n - 48
           else if (97 <=? n) && (n <=? 122) then n - 87
           else if (65 <=? n) && (n <=? 90) then n - 55
           else radix in
  if v <? radix then Some v else None.

(** The longest prefix of radix digits, most significant first, and what
    follows it. *)
Fixpoint spanDigits (radix : Z) (s : string) : list Z * string :=
  match s with
  | EmptyString => ([], EmptyString)
  | String c r =>
      match digitOf radix c with
      | Some v => let (ds, rest) := spanDigits radix r in (v :: ds, rest)
      | None => ([], s)
      end
  end.

Definition mathInt (radix : Z) (ds : list Z) : Z :=
  fold_left (fun acc v => acc * radix + v) ds 0.

Fixpoint trimStart (s : string) : string :=
  match s with
  | EmptyString => EmptyString
  | String c r => if isStrWhiteSpaceChar c then trimStart r else s
  end.

Fixpoint isBlank (s : string) : bool :=
  match s with
  | EmptyString => true
  | String c r => isStrWhiteSpaceChar c && isBlank r
  end.

(** [attr] gives a string, or undefined where the attribute is absent. *)
Definition ToString (v : option string) : string :=
  match v with
  | Some s => s
  | None => "undefined"%string
  end.

(** A leading [-] or [+], taken off: the sign and what follows. *)
Definition signOf (s : string) : Z * string :=
  match s with
  | String "-" r => (-1, r)
  | String "+" r => (1, r)
  | _ => (1, s)
  end.

(** [parseInt(v, 10)]: leading white space, a sign, then the longest run of
    decimal digits; NaN without a digit.  What follows the digits is
    ignored.  The value is the exact whole number: the double of the code
    up to 2^53 in magnitude, where the code rounds beyond, and gives an
    infinity past the range of the doubles. *)
Definition parseInt10 (v : option string) : number :=
  let (sign, str) := signOf (trimStart (ToString v)) in
  match spanDigits 10 str with
  | ([], _) => NaN
  | (digits, _) => Fin (inject_Z (sign * mathInt 10 digits))
  end.

(** ExponentPart_opt followed by trailing white space only: the exponent,
    or nothing where [s] is not of that shape. *)
Definition exponentPart (s : string) : option Z :=
  match s with
  | String c r =>
      if (Ascii.eqb c "e" || Ascii.eqb c "E")%bool then
        let (sg, r1) := signOf r in
        match spanDigits 10 r1 with
        | ([], _) => None
        | (ds, rest) => if isBlank rest then Some (sg * mathInt 10 ds) else None
        end
      else if isBlank s then Some 0 else None
  | EmptyString => Some 0
  end.

(** StrUnsignedDecimalLiteral other than Infinity, then white space. *)
Definition unsignedDecimal (s : string) : option Q :=
  let (ip, r1) := spanDigits 10 s in
  let (fp, r2) :=
    match r1 with
    | String "." r => spanDigits 10 r
    | _ => ([], r1)
    end in
  match ip, fp with
  | [], [] => None
  | _, _ =>
      match exponentPart r2 with
      | Some e =>
          let m := mathInt 10 (ip ++ fp) in
          Some (inject_Z m * Qpower (10 # 1) (e - Z.of_nat (List.length fp)))%Q
      | None => None
      end
  end.

(** A literal of radix 16, 8 or 2 after its two-character prefix. *)
Definition prefixed (radix : Z) (s : string) : number :=
  match spanDigits radix s with
  | ([], _) => NaN
  | (ds, rest) => if isBlank rest then Fin (inject_Z (mathInt radix ds)) else NaN
  end.

Definition startsWith (p s : string) : option string :=
  if String.prefix p s
  then Some (substring (String.length p) (String.length s - String.length p) s)
  else None.

(** StrNumericLiteral followed by white space. *)
Definition strNumericLiteral (s : string) : number :=
  match s with
  | String "0" (String "x" r) | String "0" (String "X" r) => prefixed 16 r
  | String "0" (String "o" r) | String "0" (String "O" r) => prefixed 8 r
  | String "0" (String "b" r) | String "0" (String "B" r) => prefixed 2 r
  | _ =>
      let (sg, r) := signOf s in
      match startsWith "Infinity" r with
      | Some rest =>
          if isBlank rest then (if sg <? 0 then NegInf else PosInf) else NaN
      | None =>
          match unsignedDecimal r with
          | Some q => Fin (inject_Z sg * q)%Q
          | None => NaN
          end
      end
  end.

(** ToNumber applied to what [attr] gives: the coercion of the relational
    operators [>=] and [<=] when the other operand is a Number.  The value
    is the exact decimal value, which the code rounds to the nearest
    double. *)
Definition ToNumber (v : option string) : number :=
  match v with
  | None => NaN
  | Some s =>
      let t := trimStart s in
      match t with
      | EmptyString => Fin 0
      | _ => strNumericLiteral t
      end
  end.

End Parse.
Export Parse.

(** ** Arrays *)

Module JsArray.

(** An array of Numbers; a hole is [None] and reads as undefined. *)
Definition array := list (option number).

(** [a[i] = v]: assigning past the end extends the array with holes. *)
Fixpoint set (a : array) (i : nat) (v : number) : array :=
  match i, a with
  | O, [] => [Some v]
  | O, _ :: r => Some v :: r
  | S i', [] => None :: set [] i' v
  | S i', x :: r => x :: set r i' v
  end.

(** [a[i]] as an operand of [>=] or [<=]: undefined counts as NaN. *)
Definition get (a : array) (i : nat) : number :=
  match nth_error a i with
  | Some (Some v) => v
  | _ => NaN
  end.

End JsArray.

(** ** The plugin *)

Record settings : Type := mkSettings {
  classes : list string;
  processedClassName : string;
  tagSelector : string;
  weightAttribute : string
}.

(** The defaults of the plugin ([randomWeights] is false throughout). *)
Definition defaults : settings := {|
  classes := ["tag-cloud-small"; "tag-cloud-medium"; "tag-cloud-large"]%string;
  processedClassName := "processed";
  tagSelector := ".tag-cloud-tag";
  weightAttribute := "data-tag-weight"
|}.

(** One element matched by [settings.tagSelector]. *)
Record tag : Type := mkTag {
  attr : option string;  (* [$(e).attr(settings.weightAttribute)] *)
  processed : bool;      (* [$(e).hasClass(settings.processedClassName)] *)
  bands : list nat       (* [j] for every [addClass] of [settings.classes[j]] *)
}.

(** [$current.addClass(settings.classes[j] + ' ' + settings.processedClassName)] *)
Definition addClass (t : tag) (j : nat) : tag :=
  {| attr := attr t; processed := true; bands := bands t ++ [j] |}.

(** A tag as the markup has it before the plugin ever ran. *)
Definition fresh (t : tag) : Prop := processed t = false /\ bands t = [].

Definition newTag (w : string) : tag :=
  {| attr := Some w; processed := false; bands := [] |}.

Section TagCloud.

Variable s : settings.
Variable tags : list tag.

(** Lines 94-96. *)
Definition weights : list number := map (fun e => parseInt10 (attr e)) tags.

(** Lines 103-106. *)
Definition max : number := Math_max weights.
Definition min : number := Math_min weights.
Definition divisions : nat := List.length (classes s).
Definition rangeSize : number := div (sub max min) (ofNat divisions).

(** Lines 107-114: the two ends first, then the loop over [1 <= j < divisions]. *)
Definition rangeValues : JsArray.array :=
  let a0 := JsArray.set [] 0 min in
  let a1 := JsArray.set a0 divisions max in
  fold_left (fun a j => JsArray.set a j (add min (mul (ofNat j) rangeSize)))
            (seq 1 (divisions - 1)) a1.

(** The test of line 130 for band [j]. *)
Definition inRange (currentWeight : option string) (j : nat) : bool :=
  ge (ToNumber currentWeight) (JsArray.get rangeValues j)
  && le (ToNumber currentWeight) (JsArray.get rangeValues (j + 1)).

(** One turn of the loop of lines 122-135. *)
Definition tryBand (currentWeight : option string) (current : tag) (j : nat) : tag :=
  if inRange currentWeight j && negb (processed current)
  then addClass current j
  else current.

(** Lines 116-136: the callback of the second [$tags.each]. *)
Definition eachTag (e : tag) : tag :=
  let currentWeight := attr e in
  fold_left (tryBand currentWeight) (seq 0 divisions) e.

(** The tags of the container after the call. *)
Definition tagCloud : list tag := map eachTag tags.

End TagCloud.

(** The band of a classified tag: the class the plugin gave it, if it
    called [addClass] on the tag exactly once. *)
Definition band (t : tag) : option nat :=
  match bands t with
  | [j] => Some j
  | _ => None
  end.

(** How a call ends.  The body of the plugin has no [throw] and hands back
    [this.each(...)]: every call returns. *)
Inductive completion : Type :=
| Returns (out : list tag)
| Throws (error : string).

Definition call (s : settings) (tags : list tag) : completion :=
  Returns (tagCloud s tags).

(** The weight of the tag is an integer: [parseInt] and the coercion of the
    comparisons read the same whole number from the attribute. *)
Definition integerWeight (t : tag) : Prop :=
  exists z : Z,
    parseInt10 (attr t) = Fin (inject_Z z)
    /\ eqb (ToNumber (attr t)) (Fin (inject_Z z)) = true.

(** The weight of the tag is a finite number, for [parseInt] and for the
    comparisons alike. *)
Definition finiteWeight (t : tag) : Prop :=
  (exists p, parseInt10 (attr t) = Fin p)
  /\ (exists q, ToNumber (attr t) = Fin q).

(** The interpolation formula of the data model,
    [min + j * (max - min) / bandCount], on Numbers. *)
Definition interpolated (lo hi : number) (bandCount j : nat) : number :=
  add lo (div (mul (ofNat j) (sub hi lo)) (ofNat bandCount)).

(** [parseInt] reads from the weight of the tag a whole number of magnitude
    at most [bound].  Up to 2^53 such a number is a double, which the code
    reads without rounding. *)
Definition parsesWithin (bound : Z) (t : tag) : Prop :=
  exists z : Z,
    (- bound <= z <= bound)%Z /\ parseInt10 (attr t) = Fin (inject_Z z).

(** The weight of the tag is a whole number of magnitude at most [bound],
    for [parseInt] and for the comparisons alike. *)
Definition wholeWeightWithin (bound : Z) (t : tag) : Prop :=
  exists z : Z,
    (- bound <= z <= bound)%Z
    /\ parseInt10 (attr t) = Fin (inject_Z z)
    /\ eqb (ToNumber (attr t)) (Fin (inject_Z z)) = true.

(** [q] is a double of magnitude at most 2^53: a whole number of at most 53
    bits over a power of two. *)
Definition exactDouble (q : Q) : Prop :=
  exists m k : Z,
    (- 2 ^ 53 <= m <= 2 ^ 53)%Z /\ (0 <= k <= 1074)%Z
    /\ q == inject_Z m / inject_Z (2 ^ k).

(** ** The whole call *)

(** [String(n)] for an integer [n] below 10^21 in magnitude, where
    JavaScript writes every digit: what [attr(name, n)] stores.  The plugin
    writes the whole numbers from 0 to 100. *)
Definition IntegerToString (z : Z) : string :=
  let digits :=
    DecimalString.NilEmpty.string_of_uint (Nat.to_uint (Z.abs_nat z)) in
  if (z <? 0)%Z then String "-" digits else digits.

(** The [overrides] object of a call; a key it does not have, or has as
    undefined, is [None]. *)
Record overrides : Type := mkOverrides {
  classesGiven : option (list string);
  processedClassNameGiven : option string;
  randomWeightsGiven : option bool;
  tagSelectorGiven : option string;
  weightAttributeGiven : option string
}.

(** [settings] with the flag that the record of the classification leaves
    out. *)
Record config : Type := mkConfig {
  settingsOf : settings;
  randomWeights : bool
}.

Definition orDefault {A : Type} (given : option A) (default : A) : A :=
  match given with
  | Some v => v
  | None => default
  end.

(** Lines 58-71: [$.extend({...defaults...}, overrides)]. *)
Definition extend (o : overrides) : config := {|
  settingsOf := {|
    classes := orDefault (classesGiven o) (classes defaults);
    processedClassName :=
      orDefault (processedClassNameGiven o) (processedClassName defaults);
    tagSelector := orDefault (tagSelectorGiven o) (tagSelector defaults);
    weightAttribute :=
      orDefault (weightAttributeGiven o) (weightAttribute defaults)
  |};
  randomWeights := orDefault (randomWeightsGiven o) false
|}.

Module Document.

(** The elements that [settings.tagSelector] matches in the whole
    document, in document order. *)
Definition document := list tag.

(** What [$current.find(settings.tagSelector)] gives for one container: the
    positions of its tags in the document. *)
Definition container := list nat.

(** The element at position [i], changed in place. *)
Fixpoint modify (doc : document) (i : nat) (f : tag -> tag) : document :=
  match doc, i with
  | [], _ => []
  | e :: r, O => f e :: r
  | e :: r, S i' => e :: modify r i' f
  end.

(** The tags of a container. *)
Definition found (doc : document) (c : container) : list tag :=
  flat_map (fun i => match nth_error doc i with
                     | Some e => [e]
                     | None => []
                     end) c.

(** [Math.floor(Math.random() * 101)], where [r] is what [Math.random()]
    gave.  The product is exact here and a double in the code; the two
    floors can differ by one, inside the same range 0..100. *)
Definition randomWeight (r : Q) : Z := Qfloor (r * 101).

(** Lines 80-82 for one element: the weight is overwritten and the marker
    removed; the classes of the bands stay. *)
Definition randomise (r : Q) (e : tag) : tag :=
  {| attr := Some (IntegerToString (randomWeight r));
     processed := false;
     bands := bands e |}.

(** Lines 79-83: every tag of the document in turn; [random k] is the value
    of the [k]-th call of [Math.random()], [n] counts the calls made. *)
Fixpoint randomiseAll (random : nat -> Q) (doc : document) (n : nat)
  : document * nat :=
  match doc with
  | [] => ([], n)
  | e :: r =>
      let (r', n') := randomiseAll random r (S n) in
      (randomise (random n) e :: r', n')
  end.

(** Lines 74-137: the callback of [this.each] for one container. *)
Definition eachContainer (cfg : config) (random : nat -> Q)
  (st : document * nat) (c : container) : document * nat :=
  let (doc, n) :=
    if randomWeights cfg then randomiseAll random (fst st) (snd st) else st in
  let tags := found doc c in
  (fold_left (fun d i => modify d i (eachTag (settingsOf cfg) tags)) c doc, n).

(** Lines 56-138: the call on the containers [this]. *)
Definition tagCloudCall (o : overrides) (random : nat -> Q)
  (this : list container) (st : document * nat) : document * nat :=
  fold_left (eachContainer (extend o) random) this st.

End Document.

(** ** The arithmetic of the classification on doubles *)

(** Lines 103-114 and 122-135 on binary64 floats, for tags whose weight
    [parseInt] and the comparisons read as the same double: [weights] is
    what lines 94-96 collect, [currentWeight] what line 130 compares. *)
Module Binary64.
Import PrimFloat.

(** The loop index as a Number (exact below 2^53). *)
Definition ofNat (n : nat) : float :=
  of_uint63 (Uint63Axioms.of_Z (Z.of_nat n)).

Definition max2 (a b : float) : float :=
  if is_nan a || is_nan b then nan else if leb a b then b else a.

Definition min2 (a b : float) : float :=
  if is_nan a || is_nan b then nan else if leb a b then a else b.

(** [Math.max.apply(Math, xs)] and [Math.min.apply(Math, xs)] *)
Definition Math_max (xs : list float) : float := fold_left max2 xs neg_infinity.
Definition Math_min (xs : list float) : float := fold_left min2 xs infinity.

Definition array : Type := list (option float).

(** [a[i] = v] *)
Fixpoint set (a : array) (i : nat) (v : float) : array :=
  match i, a with
  | O, [] => [Some v]
  | O, _ :: r => Some v :: r
  | S i', [] => None :: set [] i' v
  | S i', x :: r => x :: set r i' v
  end.

(** [a[i]] in a comparison: a hole or an index past the end is undefined,
    which compares as NaN. *)
Definition get (a : array) (i : nat) : float :=
  match nth_error a i with
  | Some (Some v) => v
  | _ => nan
  end.

Section Run.

Variable weights : list float.
Variable divisions : nat.

(** Lines 103-106. *)
Definition max : float := Math_max weights.
Definition min : float := Math_min weights.
Definition rangeSize : float := div (sub max min) (ofNat divisions).

(** Lines 107-114. *)
Definition rangeValues : array :=
  let a0 := set [] 0 min in
  let a1 := set a0 divisions max in
  fold_left (fun a j => set a j (add min (mul (ofNat j) rangeSize)))
            (seq 1 (divisions - 1)) a1.

(** The test of line 130 for band [j]. *)
Definition inRange (currentWeight : float) (j : nat) : bool :=
  leb (get rangeValues j) currentWeight
  && leb currentWeight (get rangeValues (j + 1)).

(** Lines 122-135 for a tag not yet marked: the indices of the classes
    added to it, with the marker as the guard of the later turns. *)
Definition eachTag (currentWeight : float) : list nat :=
  snd (fold_left
         (fun (current : bool * list nat) j =>
            if inRange currentWeight j && negb (fst current)
            then (true, snd current ++ [j])
            else current)
         (seq 0 divisions) (false, [])).

(** The data model's formula [min + j * (max - min) / bandCount], every
    operation a double. *)
Definition interpolated (j : nat) : float :=
  add min (div (mul (ofNat j) (sub max min)) (ofNat divisions)).

End Run.

End Binary64.

(** ** Notions used to state the properties *)

(** The loop [for (...) a[j] = f(j)] over the indices [js]. *)
Definition fill (f : nat -> number) (js : list nat) (a : JsArray.array)
  : JsArray.array :=
  fold_left (fun a j => JsArray.set a j (f j)) js a.

(** The entry the code leaves at index [k] of [rangeValues]: index
    [divisions] is written after index 0, the loop writes in between. *)
Definition boundary (s : settings) (tags : list tag) (k : nat) : number :=
  if (k =? divisions s)%nat then max tags
  else if (k =? 0)%nat then min tags
  else add (min tags) (mul (ofNat k) (rangeSize s tags)).

(** The value of [rangeSize] between the finite ends [lo] and [hi]. *)
Definition width (lo hi : Q) (d : nat) : Q := (hi - lo) / inject_Z (Z.of_nat d).

(** The value of [boundary k] between the finite ends [lo] and [hi]. *)
Definition edge (lo hi : Q) (d k : nat) : Q :=
  if (k =? d)%nat then hi
  else if (k =? 0)%nat then lo
  else lo + inject_Z (Z.of_nat k) * width lo hi d.

(** The digits of a decimal numeral, most significant first. *)
Fixpoint digitsOf (u : Decimal.uint) : list Z :=
  match u with
  | Decimal.Nil => []
  | Decimal.D0 r => 0 :: digitsOf r
  | Decimal.D1 r => 1 :: digitsOf r
  | Decimal.D2 r => 2 :: digitsOf r
  | Decimal.D3 r => 3 :: digitsOf r
  | Decimal.D4 r => 4 :: digitsOf r
  | Decimal.D5 r => 5 :: digitsOf r
  | Decimal.D6 r => 6 :: digitsOf r
  | Decimal.D7 r => 7 :: digitsOf r
  | Decimal.D8 r => 8 :: digitsOf r
  | Decimal.D9 r => 9 :: digitsOf r
  end%Z.

(** The branch of [strNumericLiteral] for a StrDecimalLiteral. *)
Definition decimalBranch (s : string) : number :=
  let (sg, r) := signOf s in
  match startsWith "Infinity" r with
  | Some rest =>
      if isBlank rest then (if (sg <? 0)%Z then NegInf else PosInf) else NaN
  | None =>
      match unsignedDecimal r with
      | Some q => Fin (inject_Z sg * q)
      | None => NaN
      end
  end.

(** What [parseInt] can give: NaN or a whole number. *)
Definition whole (w : number) : Prop :=
  w = NaN \/ exists z : Z, w = Fin (inject_Z z).

(** The second [$tags.each] of a container, with the callback [g]. *)
Definition visit (g : tag -> tag) (c : Document.container)
  (doc : Document.document) : Document.document :=
  fold_left (fun d i => Document.modify d i g) c doc.

(** The call without random weights. *)
Definition plainCall (s : settings) (this : list Document.container)
  (doc : Document.document) : Document.document :=
  fold_left (fun d c => visit (eachTag s (Document.found d c)) c d) this doc.

(** The same loop with the callback of each container fixed beforehand. *)
Definition callWith (G : Document.container -> tag -> tag)
  (this : list Document.container) (doc : Document.document)
  : Document.document :=
  fold_left (fun d c => visit (G c) c d) this doc.

(** What the callbacks of the containers that hold position [k] make, one
    after the other, of the tag at this position. *)
Definition through (G : Document.container -> tag -> tag) (k : nat)
  (this : list Document.container) (e : tag) : tag :=
  fold_left (fun e c => if in_dec Nat.eq_dec k c then G c e else e) this e.

(** The callback of the container [c], from the weights of [doc0]. *)
Definition classifier (s : settings) (doc0 : Document.document)
  (c : Document.container) : tag -> tag :=
  eachTag s (Document.found doc0 c).

(** * Properties *)

(** ** Arrays: what an assignment leaves and what it writes *)

Module JsArrayFacts.
Import JsArray.

Lemma length_set (a : array) (i : nat) (v : number) :
  List.length (set a i v) = Nat.max (List.length a) (S i).
Proof.
  revert a; induction i as [|i IH]; intros [|x r]; simpl;
    try rewrite IH; simpl; lia.
Qed.

Lemma nth_error_set_same (a : array) (i : nat) (v : number) :
  nth_error (set a i v) i = Some (Some v).
Proof.
  revert a; induction i as [|i IH]; intros [|x r]; simpl; auto.
Qed.

Lemma nth_error_set_other (a : array) (i k : nat) (v : number) :
  k <> i -> (k < List.length a)%nat ->
  nth_error (set a i v) k = nth_error a k.
Proof.
  revert a k; induction i as [|i IH]; intros [|x r] [|k] Hne Hlt;
    simpl in *; try lia; auto.
  apply IH; lia.
Qed.

Section Loop.

Variable f : nat -> number.

Lemma fill_cons (j : nat) (js : list nat) (a : array) :
  fill f (j :: js) a = fill f js (set a j (f j)).
Proof. reflexivity. Qed.

Lemma length_fill (js : list nat) (a : array) :
  Forall (fun j => (j < List.length a)%nat) js ->
  List.length (fill f js a) = List.length a.
Proof.
  revert a; induction js as [|j js IH]; intros a Hjs; [reflexivity|].
  inversion Hjs as [|? ? Hj Hrest]; subst.
  assert (Hlen : List.length (set a j (f j)) = List.length a)
    by (rewrite length_set; lia).
  rewrite fill_cons, IH; [exact Hlen|].
  rewrite Hlen; exact Hrest.
Qed.

Lemma nth_error_fill (js : list nat) (a : array) (k : nat) :
  Forall (fun j => (j < List.length a)%nat) js ->
  (k < List.length a)%nat ->
  nth_error (fill f js a) k =
  if in_dec Nat.eq_dec k js then Some (Some (f k)) else nth_error a k.
Proof.
  revert a; induction js as [|j js IH]; intros a Hjs Hk; [reflexivity|].
  inversion Hjs as [|? ? Hj Hrest]; subst.
  assert (Hlen : List.length (set a j (f j)) = List.length a)
    by (rewrite length_set; lia).
  rewrite fill_cons, IH; try (rewrite Hlen; assumption).
  simpl.
  destruct (in_dec Nat.eq_dec k js) as [Hin|Hnin];
    destruct (Nat.eq_dec j k) as [->|Hne]; try reflexivity.
  - apply nth_error_set_same.
  - apply nth_error_set_other; auto.
Qed.

End Loop.

End JsArrayFacts.

(** ** The boundary array in closed form *)

Section RangeValues.

Variable s : settings.
Variable tags : list tag.

Local Abbreviation boundary := (boundary s tags).

Lemma rangeValues_closed :
  rangeValues s tags = map (fun k => Some (boundary k)) (seq 0 (S (divisions s))).
Proof.
  set (d := divisions s).
  set (a1 := JsArray.set (JsArray.set [] 0 (min tags)) d (max tags)).
  assert (Hlen1 : List.length a1 = S d).
  { unfold a1. rewrite JsArrayFacts.length_set. simpl. lia. }
  assert (Hjs : Forall (fun j => (j < List.length a1)%nat) (seq 1 (d - 1))).
  { apply Forall_forall. intros j Hj. apply in_seq in Hj. lia. }
  apply nth_error_ext. intro k.
  unfold rangeValues. fold d. fold a1.
  change (fold_left _ (seq 1 (d - 1)) a1)
    with (fill
            (fun j => add (min tags) (mul (ofNat j) (rangeSize s tags)))
            (seq 1 (d - 1)) a1).
  destruct (Nat.lt_ge_cases k (S d)) as [Hk|Hk].
  - rewrite JsArrayFacts.nth_error_fill by (try assumption; lia).
    rewrite nth_error_map, nth_error_seq.
    destruct (Nat.ltb_spec k (S d)) as [_|?]; [|lia]. simpl.
    unfold boundary. fold d.
    destruct (in_dec Nat.eq_dec k (seq 1 (d - 1))) as [Hin|Hnin].
    + apply in_seq in Hin.
      destruct (Nat.eqb_spec k d); [lia|].
      destruct (Nat.eqb_spec k 0); [lia|]. reflexivity.
    + assert (Hcases : k = d \/ (k = 0%nat /\ k <> d)).
      { destruct (Nat.eq_dec k d); [left; assumption|].
        destruct (Nat.eq_dec k 0); [right; split; assumption|].
        exfalso. apply Hnin. apply in_seq. lia. }
      destruct Hcases as [->|[-> Hne]].
      * rewrite Nat.eqb_refl. unfold a1.
        apply JsArrayFacts.nth_error_set_same.
      * destruct (Nat.eqb_spec 0 d); [lia|].
        change (nth_error a1 0 = Some (Some (min tags))).
        unfold a1. rewrite JsArrayFacts.nth_error_set_other; simpl; auto; lia.
  - transitivity (@None (option number)).
    + apply nth_error_None.
      rewrite JsArrayFacts.length_fill by assumption. lia.
    + symmetry. apply nth_error_None. rewrite length_map, length_seq. lia.
Qed.

Lemma get_rangeValues (k : nat) :
  (k <= divisions s)%nat -> JsArray.get (rangeValues s tags) k = boundary k.
Proof.
  intro Hk. unfold JsArray.get. rewrite rangeValues_closed.
  rewrite nth_error_map, nth_error_seq.
  destruct (Nat.ltb_spec k (S (divisions s))); [reflexivity|lia].
Qed.

End RangeValues.

(** ** Minimum and maximum of the parsed weights *)

Module NumberFacts.

Lemma le_Fin (p q : Q) : le (Fin p) (Fin q) = true <-> p <= q.
Proof. apply Qle_bool_iff. Qed.

Lemma le_Fin_false (p q : Q) : le (Fin p) (Fin q) = false <-> q < p.
Proof.
  simpl. split; intro H.
  - apply Qnot_le_lt. intro Hle. apply Qle_bool_iff in Hle. congruence.
  - destruct (Qle_bool p q) eqn:E; [|reflexivity].
    apply Qle_bool_iff in E. exfalso. apply (Qlt_not_le _ _ H E).
Qed.

Lemma le_NaN_l (a : number) : le NaN a = false.
Proof. reflexivity. Qed.

Lemma le_NaN_r (a : number) : le a NaN = false.
Proof. destruct a; reflexivity. Qed.

Lemma max2_NaN_r (a : number) : max2 a NaN = NaN.
Proof. destruct a; reflexivity. Qed.

Lemma min2_NaN_r (a : number) : min2 a NaN = NaN.
Proof. destruct a; reflexivity. Qed.

Lemma fold_max2_NaN (xs : list number) : fold_left max2 xs NaN = NaN.
Proof. induction xs as [|x xs IH]; simpl; auto. Qed.

Lemma fold_min2_NaN (xs : list number) : fold_left min2 xs NaN = NaN.
Proof. induction xs as [|x xs IH]; simpl; auto. Qed.

(** One NaN among the arguments makes both results NaN. *)
Lemma Math_max_NaN (xs : list number) : In NaN xs -> Math_max xs = NaN.
Proof.
  unfold Math_max. generalize NegInf.
  induction xs as [|x xs IH]; intros a Hin; [destruct Hin|].
  destruct Hin as [->|Hin]; simpl.
  - rewrite max2_NaN_r. apply fold_max2_NaN.
  - apply IH; assumption.
Qed.

Lemma Math_min_NaN (xs : list number) : In NaN xs -> Math_min xs = NaN.
Proof.
  unfold Math_min. generalize PosInf.
  induction xs as [|x xs IH]; intros a Hin; [destruct Hin|].
  destruct Hin as [->|Hin]; simpl.
  - rewrite min2_NaN_r. apply fold_min2_NaN.
  - apply IH; assumption.
Qed.

Lemma fold_max2_Fin (xs : list number) (a : Q) :
  Forall finite xs ->
  exists hi, fold_left max2 xs (Fin a) = Fin hi
             /\ (hi = a \/ In (Fin hi) xs)
             /\ a <= hi
             /\ forall q, In (Fin q) xs -> q <= hi.
Proof.
  revert a; induction xs as [|x xs IH]; intros a Hfin; simpl.
  - exists a. repeat split; auto using Qle_refl. intros q [].
  - inversion Hfin as [|? ? [p ->] Hrest]; subst.
    simpl. destruct (Qle_bool a p) eqn:E.
    + apply Qle_bool_iff in E.
      destruct (IH p Hrest) as (hi & Heq & Hin & Hle & Hall).
      exists hi. repeat split; auto.
      * destruct Hin as [->|Hin]; auto.
      * eapply Qle_trans; eassumption.
      * intros q [Hq|Hq]; [injection Hq as <-; assumption|auto].
    + apply (le_Fin_false a p) in E.
      destruct (IH a Hrest) as (hi & Heq & Hin & Hle & Hall).
      exists hi. repeat split; auto.
      * destruct Hin as [->|Hin]; auto.
      * intros q [Hq|Hq]; [injection Hq as <-|auto].
        apply Qlt_le_weak. eapply Qlt_le_trans; eassumption.
Qed.

Lemma fold_min2_Fin (xs : list number) (a : Q) :
  Forall finite xs ->
  exists lo, fold_left min2 xs (Fin a) = Fin lo
             /\ (lo = a \/ In (Fin lo) xs)
             /\ lo <= a
             /\ forall q, In (Fin q) xs -> lo <= q.
Proof.
  revert a; induction xs as [|x xs IH]; intros a Hfin; simpl.
  - exists a. repeat split; auto using Qle_refl. intros q [].
  - inversion Hfin as [|? ? [p ->] Hrest]; subst.
    simpl. destruct (Qle_bool a p) eqn:E.
    + apply Qle_bool_iff in E.
      destruct (IH a Hrest) as (lo & Heq & Hin & Hle & Hall).
      exists lo. repeat split; auto.
      * destruct Hin as [->|Hin]; auto.
      * intros q [Hq|Hq]; [injection Hq as <-|auto].
        eapply Qle_trans; eassumption.
    + apply (le_Fin_false a p) in E.
      destruct (IH p Hrest) as (lo & Heq & Hin & Hle & Hall).
      exists lo. repeat split; auto.
      * destruct Hin as [->|Hin]; auto.
      * apply Qlt_le_weak. eapply Qle_lt_trans; eassumption.
      * intros q [Hq|Hq]; [injection Hq as <-; assumption|auto].
Qed.

(** Over finite arguments, at least one of them, [Math.max] is the
    greatest and belongs to them. *)
Lemma Math_max_Fin (xs : list number) :
  xs <> [] -> Forall finite xs ->
  exists hi, Math_max xs = Fin hi /\ In (Fin hi) xs
             /\ forall q, In (Fin q) xs -> q <= hi.
Proof.
  destruct xs as [|x xs]; [congruence|]. intros _ Hfin.
  inversion Hfin as [|? ? [p ->] Hrest]; subst.
  destruct (fold_max2_Fin xs p Hrest) as (hi & Heq & Hin & Hle & Hall).
  exists hi. unfold Math_max. simpl. repeat split; auto.
  - destruct Hin as [->|Hin]; auto.
  - intros q [Hq|Hq]; [injection Hq as <-; assumption|auto].
Qed.

Lemma Math_min_Fin (xs : list number) :
  xs <> [] -> Forall finite xs ->
  exists lo, Math_min xs = Fin lo /\ In (Fin lo) xs
             /\ forall q, In (Fin q) xs -> lo <= q.
Proof.
  destruct xs as [|x xs]; [congruence|]. intros _ Hfin.
  inversion Hfin as [|? ? [p ->] Hrest]; subst.
  destruct (fold_min2_Fin xs p Hrest) as (lo & Heq & Hin & Hle & Hall).
  exists lo. unfold Math_min. simpl. repeat split; auto.
  - destruct Hin as [->|Hin]; auto.
  - intros q [Hq|Hq]; [injection Hq as <-; assumption|auto].
Qed.

End NumberFacts.

(** [parseInt] gives NaN or an integer, never an infinity. *)
Lemma parseInt10_cases (v : option string) :
  parseInt10 v = NaN \/ exists z : Z, parseInt10 v = Fin (inject_Z z).
Proof.
  unfold parseInt10.
  destruct (signOf (trimStart (ToString v))) as [sign str].
  destruct (spanDigits 10 str) as [[|z0 ds] rest]; [left|right]; eauto.
Qed.

(** ** The loop over the bands: the first band in range wins *)

Section FirstMatch.

Variable p : nat -> bool.

Lemma find_seq_first (a n j : nat) :
  find p (seq a n) = Some j ->
  (a <= j < a + n)%nat /\ p j = true
  /\ forall i, (a <= i < j)%nat -> p i = false.
Proof.
  revert a; induction n as [|n IH]; intros a; simpl; [discriminate|].
  destruct (p a) eqn:E.
  - intros [= <-]. repeat split; try lia; auto.
  - intro H. destruct (IH _ H) as (Hr & Hp & Hmin).
    repeat split; try lia; auto.
    intros i Hi. destruct (Nat.eq_dec i a) as [->|Hne]; auto.
    apply Hmin. lia.
Qed.

Lemma find_seq_none (a n : nat) :
  find p (seq a n) = None -> forall i, (a <= i < a + n)%nat -> p i = false.
Proof.
  intros H i Hi. apply (find_none _ _ H). apply in_seq. exact Hi.
Qed.

Lemma find_seq_intro (a n j : nat) :
  (a <= j < a + n)%nat -> p j = true ->
  (forall i, (a <= i < j)%nat -> p i = false) ->
  find p (seq a n) = Some j.
Proof.
  intros Hj Hp Hmin.
  destruct (find p (seq a n)) as [k|] eqn:E.
  - destruct (find_seq_first _ _ _ E) as (Hk & Hpk & Hmink).
    f_equal. destruct (Nat.lt_trichotomy k j) as [Hlt|[Heq|Hgt]]; auto.
    + rewrite Hmin in Hpk by lia. discriminate.
    + rewrite Hmink in Hp by lia. discriminate.
  - rewrite (find_seq_none _ _ E j Hj) in Hp. discriminate.
Qed.

End FirstMatch.

Section EachTag.

Variable s : settings.
Variable tags : list tag.

Lemma tryBand_processed (w : option string) (js : list nat) (e : tag) :
  processed e = true -> fold_left (tryBand s tags w) js e = e.
Proof.
  intro Hp. induction js as [|j js IH]; simpl; [reflexivity|].
  unfold tryBand at 2. rewrite Hp, andb_false_r. exact IH.
Qed.

Lemma tryBand_unprocessed (w : option string) (js : list nat) (e : tag) :
  processed e = false ->
  fold_left (tryBand s tags w) js e =
  match find (inRange s tags w) js with
  | Some j => addClass e j
  | None => e
  end.
Proof.
  intro Hp. induction js as [|j js IH]; simpl; [reflexivity|].
  unfold tryBand at 2. rewrite Hp, andb_true_r.
  destruct (inRange s tags w j).
  - apply tryBand_processed. reflexivity.
  - exact IH.
Qed.

(** A tag already marked is left alone. *)
Lemma eachTag_processed (e : tag) : processed e = true -> eachTag s tags e = e.
Proof. apply tryBand_processed. Qed.

(** An unmarked tag gets the class of the first band whose range holds its
    weight, with the marker, and nothing if there is no such band. *)
Lemma eachTag_unprocessed (e : tag) :
  processed e = false ->
  eachTag s tags e =
  match find (inRange s tags (attr e)) (seq 0 (divisions s)) with
  | Some j => addClass e j
  | None => e
  end.
Proof. apply tryBand_unprocessed. Qed.

(** The weight attribute is never written. *)
Lemma attr_eachTag (e : tag) : attr (eachTag s tags e) = attr e.
Proof.
  destruct (processed e) eqn:Hp.
  - rewrite eachTag_processed by assumption. reflexivity.
  - rewrite eachTag_unprocessed by assumption.
    destruct (find _ _); reflexivity.
Qed.

(** What a run does to a fresh tag, read from its result. *)
Lemma eachTag_fresh_band (e : tag) (j : nat) :
  fresh e ->
  (bands (eachTag s tags e) = [j] <->
   find (inRange s tags (attr e)) (seq 0 (divisions s)) = Some j).
Proof.
  intros [Hp Hb]. rewrite eachTag_unprocessed by assumption.
  destruct (find _ _) as [k|]; simpl; rewrite Hb; simpl; split;
    congruence.
Qed.

End EachTag.

(** ** Evenly spaced edges between two finite ends *)

Section Interpolation.

Variables lo hi : Q.
Variable d : nat.
Hypothesis Hd : (0 < d)%nat.

Local Abbreviation width := (width lo hi d).
Local Abbreviation edge := (edge lo hi d).

Lemma inject_nat_pos : 0 < inject_Z (Z.of_nat d).
Proof. unfold Qlt. simpl. lia. Qed.

Lemma inject_nat_le (i j : nat) :
  (i <= j)%nat -> inject_Z (Z.of_nat i) <= inject_Z (Z.of_nat j).
Proof. intro H. rewrite <- Zle_Qle. lia. Qed.

Lemma inject_nat_lt (i j : nat) :
  (i < j)%nat -> inject_Z (Z.of_nat i) < inject_Z (Z.of_nat j).
Proof. intro H. rewrite <- Zlt_Qlt. lia. Qed.

Lemma width_total : inject_Z (Z.of_nat d) * width == hi - lo.
Proof.
  unfold width. apply Qmult_div_r.
  intro H. pose proof inject_nat_pos as Hp. rewrite H in Hp.
  exact (Qlt_irrefl _ Hp).
Qed.

Lemma edge_linear (k : nat) :
  (k <= d)%nat -> edge k == lo + inject_Z (Z.of_nat k) * width.
Proof.
  intro Hk. unfold edge.
  destruct (Nat.eqb_spec k d) as [->|Hne].
  - rewrite width_total. ring.
  - destruct (Nat.eqb_spec k 0) as [->|Hne0]; [|reflexivity].
    simpl. ring.
Qed.


Lemma width_nonneg : lo <= hi -> 0 <= width.
Proof.
  intro H. unfold width. apply Qle_shift_div_l; [apply inject_nat_pos|].
  lra.
Qed.

Lemma width_pos : lo < hi -> 0 < width.
Proof.
  intro H. unfold width. apply Qlt_shift_div_l; [apply inject_nat_pos|].
  lra.
Qed.

Lemma edge_mono (i j : nat) :
  lo <= hi -> (i <= j <= d)%nat -> edge i <= edge j.
Proof.
  intros Hle Hij. rewrite (edge_linear i), (edge_linear j) by lia.
  pose proof (width_nonneg Hle) as Hw.
  pose proof (inject_nat_le i j (proj1 Hij)) as Hinj.
  nra.
Qed.

Lemma edge_strict (i j : nat) :
  lo < hi -> (i < j <= d)%nat -> edge i < edge j.
Proof.
  intros Hlt Hij. rewrite (edge_linear i), (edge_linear j) by lia.
  pose proof (width_pos Hlt) as Hw.
  pose proof (inject_nat_lt i j (proj1 Hij)) as Hinj.
  nra.
Qed.

Lemma edge_0 : edge 0 = lo.
Proof.
  unfold edge. destruct (Nat.eqb_spec 0 d); [lia|]. reflexivity.
Qed.

Lemma edge_d : edge d = hi.
Proof. unfold edge. rewrite Nat.eqb_refl. reflexivity. Qed.

(** With equal ends every edge is that one value. *)
Lemma edge_collapse (k : nat) : lo == hi -> (k <= d)%nat -> edge k == lo.
Proof.
  intros Heq Hk. rewrite edge_linear by assumption.
  pose proof width_total as Hw.
  assert (Hz : width == 0).
  { unfold width. rewrite Heq. unfold Qdiv. ring. }
  rewrite Hz. ring.
Qed.

(** A value between the ends lies in some band, and the first band that
    holds it is the first whose upper edge reaches it. *)
Lemma edge_cover (q : Q) :
  lo <= q -> q <= hi ->
  exists j, (j < d)%nat /\ edge j <= q /\ q <= edge (S j)
            /\ forall i, (i < j)%nat -> edge (S i) < q.
Proof.
  intros Hlo Hhi.
  assert (Hex : forall n, (n <= d)%nat ->
            (forall i, (i < n)%nat -> edge (S i) < q) \/
            exists j, (j < n)%nat /\ edge j <= q /\ q <= edge (S j)
                      /\ forall i, (i < j)%nat -> edge (S i) < q).
  { induction n as [|n IH]; intro Hn.
    - left. intros i Hi. lia.
    - destruct IH as [Hall|Hfound]; [lia| |].
      + destruct (Qlt_le_dec (edge (S n)) q) as [Hlt|Hge].
        * left. intros i Hi.
          destruct (Nat.eq_dec i n) as [->|Hne]; [assumption|apply Hall; lia].
        * right. exists n. repeat split; auto.
          destruct n as [|m]; [rewrite edge_0; assumption|].
          apply Qlt_le_weak, Hall. lia.
      + right. destruct Hfound as (j & Hj & Hrest). exists j. split; [lia|assumption]. }
  destruct (Hex d (Nat.le_refl d)) as [Hall|Hfound]; [|assumption].
  exfalso. destruct d as [|m] eqn:E; [lia|].
  specialize (Hall m (Nat.lt_succ_diag_r m)). rewrite <- E in Hall.
  rewrite edge_d in Hall. exact (Qlt_not_le _ _ Hall Hhi).
Qed.

End Interpolation.

(** ** The boundaries the code computes *)

Section Boundaries.

Import NumberFacts.

Variable s : settings.
Variable tags : list tag.

Lemma weights_finite_or_NaN :
  In NaN (weights tags) \/ Forall finite (weights tags).
Proof.
  unfold weights. induction tags as [|e es IH]; simpl.
  - right. constructor.
  - destruct (parseInt10_cases (attr e)) as [E|[z E]]; [left; auto|].
    destruct IH as [Hin|Hall]; [left; auto|right].
    constructor; [exists (inject_Z z); exact E|exact Hall].
Qed.

(** Both ends are NaN, or both are finite and belong to the weights. *)
Lemma min_max_cases :
  tags <> [] ->
  (min tags = NaN /\ max tags = NaN) \/
  exists lo hi,
    min tags = Fin lo /\ max tags = Fin hi /\ lo <= hi
    /\ In (Fin lo) (weights tags) /\ In (Fin hi) (weights tags)
    /\ forall q, In (Fin q) (weights tags) -> lo <= q /\ q <= hi.
Proof.
  intro Hne.
  destruct weights_finite_or_NaN as [Hnan|Hfin].
  - left. split; [apply Math_min_NaN|apply Math_max_NaN]; exact Hnan.
  - right.
    assert (Hw : weights tags <> []).
    { unfold weights. destruct tags; [congruence|discriminate]. }
    destruct (Math_min_Fin _ Hw Hfin) as (lo & Hmin & Hlo & Hlow).
    destruct (Math_max_Fin _ Hw Hfin) as (hi & Hmax & Hhi & Hupp).
    exists lo, hi. repeat split; auto.
Qed.

Lemma rangeSize_finite (lo hi : Q) :
  (0 < divisions s)%nat ->
  min tags = Fin lo -> max tags = Fin hi ->
  rangeSize s tags = Fin (width lo hi (divisions s)).
Proof.
  intros Hd Hmin Hmax. unfold rangeSize, width. rewrite Hmin, Hmax.
  unfold ofNat, sub, div.
  pose proof (inject_nat_pos (divisions s) Hd) as Hp.
  apply Qgt_alt in Hp. rewrite Hp. reflexivity.
Qed.

Lemma boundary_finite (lo hi : Q) (k : nat) :
  (0 < divisions s)%nat ->
  min tags = Fin lo -> max tags = Fin hi ->
  boundary s tags k = Fin (edge lo hi (divisions s) k).
Proof.
  intros Hd Hmin Hmax. unfold boundary, edge.
  rewrite (rangeSize_finite lo hi Hd Hmin Hmax), Hmin, Hmax.
  destruct (k =? divisions s)%nat; [reflexivity|].
  destruct (k =? 0)%nat; reflexivity.
Qed.

Lemma boundary_NaN (k : nat) :
  min tags = NaN -> max tags = NaN -> boundary s tags k = NaN.
Proof.
  intros Hmin Hmax. unfold boundary. rewrite Hmin, Hmax.
  destruct (k =? divisions s)%nat; [reflexivity|].
  destruct (k =? 0)%nat; reflexivity.
Qed.

(** With a NaN end no band holds any weight. *)
Lemma inRange_NaN (w : option string) (j : nat) :
  (j < divisions s)%nat ->
  min tags = NaN -> max tags = NaN -> inRange s tags w j = false.
Proof.
  intros Hj Hmin Hmax. unfold inRange.
  rewrite get_rangeValues by lia.
  rewrite boundary_NaN by assumption.
  unfold ge. rewrite le_NaN_l. reflexivity.
Qed.

Lemma inRange_finite (lo hi : Q) (w : option string) (j : nat) :
  (j < divisions s)%nat ->
  min tags = Fin lo -> max tags = Fin hi ->
  inRange s tags w j =
  le (Fin (edge lo hi (divisions s) j)) (ToNumber w)
  && le (ToNumber w) (Fin (edge lo hi (divisions s) (S j))).
Proof.
  intros Hj Hmin Hmax. unfold inRange, ge.
  rewrite !get_rangeValues by lia.
  rewrite !(boundary_finite lo hi) by (assumption || lia).
  rewrite Nat.add_1_r. reflexivity.
Qed.

(** A weight between two finite boundaries is finite. *)
Lemma between_finite (a : number) (p q : Q) :
  le (Fin p) a && le a (Fin q) = true ->
  exists w, a = Fin w /\ p <= w /\ w <= q.
Proof.
  destruct a as [| | |w]; simpl; try discriminate.
  intro H. apply andb_true_iff in H. destruct H as [H1 H2].
  apply Qle_bool_iff in H1, H2. eauto.
Qed.

(** What stands behind a first match: finite ends, a finite weight, and
    the band found is the first one whose range holds the weight. *)
Lemma first_match_inv (w : option string) (j : nat) :
  tags <> [] ->
  find (inRange s tags w) (seq 0 (divisions s)) = Some j ->
  exists lo hi q,
    min tags = Fin lo /\ max tags = Fin hi /\ lo <= hi
    /\ ToNumber w = Fin q /\ (j < divisions s)%nat
    /\ edge lo hi (divisions s) j <= q
    /\ q <= edge lo hi (divisions s) (S j)
    /\ forall i, (i < j)%nat ->
         ~ (edge lo hi (divisions s) i <= q
            /\ q <= edge lo hi (divisions s) (S i)).
Proof.
  intros Hne Hf.
  destruct (find_seq_first _ _ _ _ Hf) as (Hj & Hin & Hfirst).
  simpl in Hj.
  destruct (min_max_cases Hne) as [[Hmin Hmax]|(lo & hi & Hmin & Hmax & Hle & _)].
  - rewrite inRange_NaN in Hin by (assumption || lia). discriminate.
  - exists lo, hi.
    rewrite (inRange_finite lo hi) in Hin by (assumption || lia).
    destruct (between_finite _ _ _ Hin) as (q & Hq & Hq1 & Hq2).
    exists q. repeat split; auto; try lia.
    intros i Hi [Hi1 Hi2].
    specialize (Hfirst i (conj (Nat.le_0_l i) Hi)).
    rewrite (inRange_finite lo hi) in Hfirst by (assumption || lia).
    rewrite Hq in Hfirst. simpl in Hfirst.
    apply Qle_bool_iff in Hi1, Hi2. rewrite Hi1, Hi2 in Hfirst. discriminate.
Qed.

(** The band of an unmarked tag, from the edges around its weight. *)
Lemma eachTag_first (lo hi q : Q) (e : tag) (j : nat) :
  processed e = false ->
  min tags = Fin lo -> max tags = Fin hi ->
  ToNumber (attr e) = Fin q ->
  (j < divisions s)%nat ->
  edge lo hi (divisions s) j <= q ->
  q <= edge lo hi (divisions s) (S j) ->
  (forall i, (i < j)%nat -> edge lo hi (divisions s) (S i) < q) ->
  eachTag s tags e = addClass e j.
Proof.
  intros Hp Hmin Hmax Hq Hj H1 H2 Hfirst.
  rewrite eachTag_unprocessed by assumption.
  rewrite (find_seq_intro (inRange s tags (attr e)) 0 (divisions s) j);
    [reflexivity|lia| |].
  - rewrite (inRange_finite lo hi) by assumption.
    rewrite Hq. simpl.
    apply Qle_bool_iff in H1, H2. rewrite H1, H2. reflexivity.
  - intros i Hi.
    rewrite (inRange_finite lo hi) by (assumption || lia).
    rewrite Hq.
    assert (Hlt : le (Fin q) (Fin (edge lo hi (divisions s) (S i))) = false).
    { apply le_Fin_false. apply Hfirst. lia. }
    rewrite Hlt. apply andb_false_r.
Qed.

(** An unmarked tag whose weight lies between the ends gets one band. *)
Lemma eachTag_in_range (lo hi q : Q) (e : tag) :
  (0 < divisions s)%nat ->
  processed e = false ->
  min tags = Fin lo -> max tags = Fin hi ->
  ToNumber (attr e) = Fin q ->
  lo <= q -> q <= hi ->
  exists j, (j < divisions s)%nat /\ eachTag s tags e = addClass e j.
Proof.
  intros Hd Hp Hmin Hmax Hq Hlo Hhi.
  destruct (edge_cover lo hi (divisions s) Hd q Hlo Hhi)
    as (j & Hj & H1 & H2 & Hfirst).
  exists j. split; [assumption|].
  apply (eachTag_first lo hi q); assumption.
Qed.

End Boundaries.

(** ** Tags with integer weights *)

Section IntegerWeights.

Import NumberFacts.

Variable s : settings.
Variable tags : list tag.

Lemma eqb_Fin_r (a : number) (p : Q) :
  eqb a (Fin p) = true -> exists q, a = Fin q /\ q == p.
Proof.
  destruct a as [| | |q]; simpl; try discriminate.
  intro H. apply andb_true_iff in H. destruct H as [H1 H2].
  apply Qle_bool_iff in H1, H2.
  exists q. split; [reflexivity|apply Qle_antisym; assumption].
Qed.

Lemma tagCloud_inv (e' : tag) :
  In e' (tagCloud s tags) -> exists e, In e tags /\ e' = eachTag s tags e.
Proof.
  unfold tagCloud. intro H. apply in_map_iff in H.
  destruct H as (e & He & Hin). exists e. auto.
Qed.

Lemma integer_weights_finite :
  Forall integerWeight tags -> Forall finite (weights tags).
Proof.
  unfold weights. intro H. apply Forall_map.
  apply (Forall_impl _ (P := integerWeight)); [|exact H].
  intros e (z & Hz & _). exists (inject_Z z). exact Hz.
Qed.

(** With integer weights the ends are finite and every weight, as the
    comparisons read it, lies between them. *)
Lemma integer_weights_between :
  tags <> [] -> Forall integerWeight tags ->
  exists lo hi,
    min tags = Fin lo /\ max tags = Fin hi /\ lo <= hi
    /\ forall e, In e tags ->
         exists q, ToNumber (attr e) = Fin q /\ lo <= q /\ q <= hi.
Proof.
  intros Hne Hint.
  destruct (min_max_cases tags Hne)
    as [[Hmin _]|(lo & hi & Hmin & Hmax & Hle & _ & _ & Hall)].
  - exfalso. pose proof (integer_weights_finite Hint) as Hfin.
    assert (Hw : weights tags <> []).
    { unfold weights. destruct tags; [congruence|discriminate]. }
    destruct (Math_min_Fin _ Hw Hfin) as (lo & Hlo & _).
    unfold min in Hmin. congruence.
  - exists lo, hi. repeat split; auto.
    intros e He. rewrite Forall_forall in Hint.
    destruct (Hint e He) as (z & Hz & Heq).
    destruct (eqb_Fin_r _ _ Heq) as (q & Hq & Hqz).
    exists q. split; [assumption|].
    assert (Hin : In (Fin (inject_Z z)) (weights tags)).
    { unfold weights. rewrite <- Hz.
      exact (in_map (fun e0 => parseInt10 (attr e0)) tags e He). }
    destruct (Hall _ Hin) as [H1 H2]. rewrite Hqz. auto.
Qed.

End IntegerWeights.

(** ** Facts shared by the claims *)

Lemma band_Some (t : tag) (j : nat) : band t = Some j <-> bands t = [j].
Proof.
  unfold band. destruct (bands t) as [|k [|k' r]]; split; congruence.
Qed.

Lemma band_addClass_fresh (e : tag) (j : nat) :
  fresh e -> band (addClass e j) = Some j.
Proof. intros [_ Hb]. unfold band, addClass. simpl. rewrite Hb. reflexivity. Qed.

Lemma lt_Fin (p q : Q) : lt (Fin p) (Fin q) = true -> p < q.
Proof.
  simpl. intro H. apply negb_true_iff in H.
  apply (NumberFacts.le_Fin_false q p). exact H.
Qed.

Lemma eqb_NaN_r (a : number) : eqb a NaN = false.
Proof. unfold eqb. rewrite NumberFacts.le_NaN_r. reflexivity. Qed.

Lemma map_id_on {A : Type} (f : A -> A) (l : list A) :
  (forall x, In x l -> f x = x) -> map f l = l.
Proof.
  induction l as [|x l IH]; intro H; simpl; [reflexivity|].
  rewrite H by (left; reflexivity). f_equal. apply IH.
  intros y Hy. apply H. right. exact Hy.
Qed.

(** *** Runs that change nothing *)

Section NoOp.

Variable s : settings.
Variable tags : list tag.

(** A tag whose weight no band holds is left as it was. *)
Lemma eachTag_no_match (e : tag) :
  (forall j, (j < divisions s)%nat -> inRange s tags (attr e) j = false) ->
  eachTag s tags e = e.
Proof.
  intro H. unfold eachTag.
  assert (Hjs : forall js, (forall j, In j js -> (j < divisions s)%nat) ->
            fold_left (tryBand s tags (attr e)) js e = e).
  { induction js as [|j js IH]; intro Hin; simpl; [reflexivity|].
    unfold tryBand at 2. rewrite H by (apply Hin; left; reflexivity).
    simpl. apply IH. intros k Hk. apply Hin. right. exact Hk. }
  apply Hjs. intros j Hj. apply in_seq in Hj. lia.
Qed.

(** With one unparsable weight both ends are NaN and no band holds
    anything. *)
Lemma unparsable_weight_ends (e : tag) :
  In e tags -> parseInt10 (attr e) = NaN ->
  min tags = NaN /\ max tags = NaN.
Proof.
  intros He Hnan.
  assert (Hin : In NaN (weights tags)).
  { unfold weights. rewrite <- Hnan.
    exact (in_map (fun x => parseInt10 (attr x)) tags e He). }
  split; [apply NumberFacts.Math_min_NaN|apply NumberFacts.Math_max_NaN];
    exact Hin.
Qed.

(** The boundaries depend on the tags through their parsed weights only. *)
Lemma eachTag_weights_ext (tags' : list tag) (e : tag) :
  weights tags' = weights tags -> eachTag s tags' e = eachTag s tags e.
Proof.
  unfold eachTag, tryBand, inRange, rangeValues, rangeSize, max, min.
  intros ->. reflexivity.
Qed.

Lemma weights_tagCloud : weights (tagCloud s tags) = weights tags.
Proof.
  unfold weights, tagCloud. rewrite map_map. apply map_ext.
  intro e. rewrite attr_eachTag. reflexivity.
Qed.

Lemma eachTag_idempotent (e : tag) :
  eachTag s tags (eachTag s tags e) = eachTag s tags e.
Proof.
  destruct (processed e) eqn:Hp.
  - rewrite (eachTag_processed s tags e Hp). apply eachTag_processed, Hp.
  - rewrite (eachTag_unprocessed s tags e Hp).
    destruct (find _ _) as [j|] eqn:Hf.
    + apply eachTag_processed. reflexivity.
    + rewrite (eachTag_unprocessed s tags e Hp), Hf. reflexivity.
Qed.

(** A second run leaves the result of the first run as it is, whatever the
    tags were before the first. *)
Lemma tagCloud_idempotent :
  tagCloud s (tagCloud s tags) = tagCloud s tags.
Proof.
  change (map (eachTag s (tagCloud s tags)) (map (eachTag s tags) tags)
          = map (eachTag s tags) tags).
  rewrite map_map. apply map_ext.
  intro e. rewrite (eachTag_weights_ext _ _ weights_tagCloud).
  apply eachTag_idempotent.
Qed.

End NoOp.

(** *** Whole weights *)

Lemma addClass_inj (e : tag) (i j : nat) : addClass e i = addClass e j -> i = j.
Proof.
  unfold addClass. intro H. injection H as H.
  apply app_inv_head in H. congruence.
Qed.

Lemma addClass_neq (e : tag) (j : nat) : addClass e j <> e.
Proof.
  intro H. apply (f_equal (fun t => List.length (bands t))) in H.
  simpl in H. rewrite length_app in H. simpl in H. lia.
Qed.

(** The run gives the class of band [j] to a tag exactly when the tag was
    not marked and [j] is the first band whose range holds its weight. *)
Lemma eachTag_assigns (s : settings) (tags : list tag) (e : tag) (j : nat) :
  eachTag s tags e = addClass e j ->
  processed e = false
  /\ find (inRange s tags (attr e)) (seq 0 (divisions s)) = Some j.
Proof.
  intro H. destruct (processed e) eqn:Hp.
  - rewrite (eachTag_processed s tags e Hp) in H.
    symmetry in H. destruct (addClass_neq _ _ H).
  - split; [reflexivity|].
    rewrite (eachTag_unprocessed s tags e Hp) in H.
    destruct (find _ _) as [k|].
    + apply addClass_inj in H. congruence.
    + symmetry in H. destruct (addClass_neq _ _ H).
Qed.


Lemma wholeWeightWithin_integer (bound : Z) (t : tag) :
  wholeWeightWithin bound t -> integerWeight t.
Proof. intros (z & _ & H). exists z. exact H. Qed.

Lemma wholeWeightWithin_parses (bound : Z) (t : tag) :
  wholeWeightWithin bound t -> parsesWithin bound t.
Proof. intros (z & Hb & Hp & _). exists z. auto. Qed.

Lemma parsesWithin_parsed (bound : Z) (tags : list tag) :
  Forall (parsesWithin bound) tags ->
  Forall (fun e => parseInt10 (attr e) <> NaN) tags.
Proof.
  apply Forall_impl. intros e (z & _ & H). rewrite H. discriminate.
Qed.

Section WholeWeights.

Variable bound : Z.
Variable tags : list tag.
Hypothesis Hne : tags <> [].

(** When every weight parses within the bound, so do the two ends. *)
Lemma parsed_ends :
  Forall (parsesWithin bound) tags ->
  exists lo hi : Z,
    min tags = Fin (inject_Z lo) /\ max tags = Fin (inject_Z hi)
    /\ (- bound <= lo)%Z /\ (lo <= hi)%Z /\ (hi <= bound)%Z
    /\ (exists e, In e tags /\ parseInt10 (attr e) = Fin (inject_Z lo))
    /\ (exists e, In e tags /\ parseInt10 (attr e) = Fin (inject_Z hi)).
Proof.
  intro Hall. rewrite Forall_forall in Hall.
  destruct (min_max_cases tags Hne)
    as [[Hmin _]|(lo & hi & Hmin & Hmax & Hle & Hlo & Hhi & _)].
  - exfalso.
    assert (Hin : In NaN (weights tags)).
    { destruct (weights_finite_or_NaN tags) as [H|H]; [exact H|].
      assert (Hw : weights tags <> []).
      { unfold weights. destruct tags; [congruence|discriminate]. }
      destruct (NumberFacts.Math_min_Fin _ Hw H) as (q & Hq & _).
      unfold min in Hmin. congruence. }
    unfold weights in Hin. apply in_map_iff in Hin.
    destruct Hin as (e & He & Hin).
    destruct (Hall e Hin) as (z & _ & Hz). congruence.
  - unfold weights in Hlo, Hhi. apply in_map_iff in Hlo, Hhi.
    destruct Hlo as (el & Hel & Hinl). destruct Hhi as (eh & Heh & Hinh).
    destruct (Hall el Hinl) as (zl & Hbl & Hzl).
    destruct (Hall eh Hinh) as (zh & Hbh & Hzh).
    assert (El : lo = inject_Z zl) by congruence.
    assert (Eh : hi = inject_Z zh) by congruence.
    subst lo hi. exists zl, zh.
    rewrite <- Zle_Qle in Hle.
    repeat split; auto; try lia; eauto.
Qed.

(** With whole weights within the bound, the two ends are the least and
    the greatest of the weights as the comparisons read them, and each is
    the weight of a tag. *)
Lemma whole_weights_ends :
  Forall (wholeWeightWithin bound) tags ->
  exists lo hi : Z,
    min tags = Fin (inject_Z lo) /\ max tags = Fin (inject_Z hi)
    /\ (- bound <= lo)%Z /\ (lo <= hi)%Z /\ (hi <= bound)%Z
    /\ (exists e, In e tags
                  /\ eqb (ToNumber (attr e)) (Fin (inject_Z lo)) = true)
    /\ (exists e, In e tags
                  /\ eqb (ToNumber (attr e)) (Fin (inject_Z hi)) = true)
    /\ forall e, In e tags ->
         exists q, ToNumber (attr e) = Fin q
                   /\ inject_Z lo <= q /\ q <= inject_Z hi.
Proof.
  intro Hall.
  assert (Hparse : Forall (parsesWithin bound) tags).
  { revert Hall. apply Forall_impl. apply wholeWeightWithin_parses. }
  assert (Hint : Forall integerWeight tags).
  { revert Hall. apply Forall_impl. apply wholeWeightWithin_integer. }
  destruct (parsed_ends Hparse)
    as (lo & hi & Hmin & Hmax & Hb1 & Hle & Hb2 & (el & Hel & Hpl)
        & (eh & Heh & Hph)).
  exists lo, hi. rewrite Forall_forall in Hint.
  repeat split; auto.
  - exists el. split; [assumption|].
    destruct (Hint el Hel) as (z & Hz & Heq).
    replace lo with z by (rewrite Hpl in Hz; injection Hz; auto).
    exact Heq.
  - exists eh. split; [assumption|].
    destruct (Hint eh Heh) as (z & Hz & Heq).
    replace hi with z by (rewrite Hph in Hz; injection Hz; auto).
    exact Heq.
  - rewrite <- Forall_forall in Hint.
    destruct (integer_weights_between tags Hne Hint)
      as (lo' & hi' & Hmin' & Hmax' & _ & Hbetween).
    rewrite Hmin in Hmin'. rewrite Hmax in Hmax'.
    injection Hmin' as <-. injection Hmax' as <-.
    exact Hbetween.
Qed.

End WholeWeights.

(** The lowest and the highest band, for a tag not yet marked. *)
Section Ends.

Variable s : settings.
Variable tags : list tag.
Variables lo hi : Q.
Hypothesis Hd : (0 < divisions s)%nat.
Hypothesis Hmin : min tags = Fin lo.
Hypothesis Hmax : max tags = Fin hi.

Lemma eachTag_lowest (q : Q) (e : tag) :
  processed e = false -> lo <= hi ->
  ToNumber (attr e) = Fin q -> q == lo ->
  eachTag s tags e = addClass e 0.
Proof.
  intros Hp Hle Hq Hqlo.
  apply (eachTag_first s tags lo hi q); try assumption.
  - rewrite edge_0 by assumption. rewrite Hqlo. apply Qle_refl.
  - rewrite Hqlo. rewrite <- (edge_0 lo hi (divisions s) Hd) at 1.
    apply edge_mono; [assumption|assumption|lia].
  - intros i Hi. lia.
Qed.

Lemma eachTag_below_edge (q : Q) (e : tag) (j : nat) :
  processed e = false -> lo < hi -> (0 < j <= divisions s)%nat ->
  ToNumber (attr e) = Fin q -> q == edge lo hi (divisions s) j ->
  eachTag s tags e = addClass e (j - 1).
Proof.
  intros Hp Hlt Hj Hq Hqj.
  assert (HS : S (j - 1) = j) by lia.
  assert (Hle : lo <= hi) by (apply Qlt_le_weak; assumption).
  apply (eachTag_first s tags lo hi q); try assumption.
  - lia.
  - rewrite Hqj. apply edge_mono; [assumption|assumption|lia].
  - rewrite HS, Hqj. apply Qle_refl.
  - intros i Hi. rewrite Hqj. apply edge_strict; [assumption|assumption|lia].
Qed.

End Ends.


(** Membership in a list that evaluates. *)
Ltac in_evaluated := vm_compute; repeat (first [left; reflexivity | right]).

(** The default settings have three bands. *)
Ltac three_bands := unfold divisions; simpl; lia.

(** * The claims *)

(** ** C1 *)

(** C1, the code at the failing input: of two items not yet processed,
    with the finite numeric weights 10 and 12.5 and three bands, the second
    is given no band.  [parseInt] reads 12 for the maximum, and the
    comparison reads 12.5. *)
Lemma fractional_weight_gets_no_band :
  let tags := [newTag "10"; newTag "12.5"] in
  tags <> [] /\ (0 < divisions defaults)%nat
  /\ Forall fresh tags /\ Forall finiteWeight tags
  /\ max tags = Fin (inject_Z 12)
  /\ eqb (ToNumber (Some "12.5"%string)) (Fin (25 # 2)) = true
  /\ tagCloud defaults tags = [addClass (newTag "10") 0; newTag "12.5"]
  /\ ~ Forall (fun e' => exists j, bands e' = [j]
                                   /\ (j < divisions defaults)%nat)
              (tagCloud defaults tags).
Proof.
  cbv zeta. split; [discriminate|]. split; [three_bands|].
  split; [repeat constructor|]. split; [|split; [|split; [|split]]].
  - repeat constructor.
    + exists (inject_Z 10). reflexivity.
    + eexists. vm_compute. reflexivity.
    + exists (inject_Z 12). reflexivity.
    + eexists. vm_compute. reflexivity.
  - reflexivity.
  - reflexivity.
  - reflexivity.
  - intro H. rewrite Forall_forall in H.
    destruct (H (newTag "12.5")) as (j & Hj & _); [|discriminate Hj].
    in_evaluated.
Qed.

(** ** C2 *)

(** C2, as the code has it: of two items of the set to which the run gives
    a band, the one whose weight is less than or equal to the other's gets
    a band index less than or equal to the other's.  Nothing is asked of
    the other items of the set, marked or not. *)
Theorem band_monotone (s : settings) (tags : list tag) (a b : tag) (ja jb : nat) :
  In a tags -> In b tags ->
  le (ToNumber (attr a)) (ToNumber (attr b)) = true ->
  eachTag s tags a = addClass a ja ->
  eachTag s tags b = addClass b jb ->
  (ja <= jb)%nat.
Proof.
  intros Ha Hb Hle Hja Hjb.
  assert (Hne : tags <> []) by (intro E; rewrite E in Ha; destruct Ha).
  apply eachTag_assigns in Hja, Hjb.
  destruct Hja as [_ Hja]. destruct Hjb as [_ Hjb].
  destruct (first_match_inv s tags _ _ Hne Hja)
    as (lo & hi & qa & Hmin & Hmax & Hlohi & Hqa & Hda & Ha1 & Ha2 & Hafirst).
  destruct (first_match_inv s tags _ _ Hne Hjb)
    as (lo' & hi' & qb & Hmin' & Hmax' & _ & Hqb & Hdb & Hb1 & Hb2 & _).
  rewrite Hmin in Hmin'. rewrite Hmax in Hmax'.
  injection Hmin' as <-. injection Hmax' as <-.
  rewrite Hqa, Hqb in Hle. apply NumberFacts.le_Fin in Hle.
  destruct (Nat.le_gt_cases ja jb) as [|Hgt]; [assumption|exfalso].
  apply (Hafirst jb Hgt). split.
  - apply Qle_trans with (edge lo hi (divisions s) ja); [|assumption].
    apply edge_mono; [lia|assumption|lia].
  - apply Qle_trans with qb; assumption.
Qed.

Lemma band_monotone_witness : (0 <= 2)%nat.
Proof.
  apply (band_monotone defaults
           [addClass (newTag "11") 0; addClass (newTag "38") 1;
            addClass (newTag "87") 2; newTag "1000"; newTag "90"]
           (newTag "90") (newTag "1000") 0 2).
  - in_evaluated.
  - in_evaluated.
  - reflexivity.
  - reflexivity.
  - reflexivity.
Defined.

(** C2 fails as stated: the items 11, 38 and 87 carry the bands 0, 1 and 2
    of an earlier run, and 1000 and 90 have been added since.  The run
    leaves the marked items as they are and gives 90 the band 0: in the
    classified set 38 weighs less than 90 and has the higher band. *)
Lemma marked_item_keeps_higher_band :
  let earlier := tagCloud defaults [newTag "11"; newTag "38"; newTag "87"] in
  let tags := earlier ++ [newTag "1000"; newTag "90"] in
  earlier = [addClass (newTag "11") 0; addClass (newTag "38") 1;
             addClass (newTag "87") 2]
  /\ tagCloud defaults tags
     = earlier ++ [addClass (newTag "1000") 2; addClass (newTag "90") 0]
  /\ exists a b,
       In a (tagCloud defaults tags) /\ In b (tagCloud defaults tags)
       /\ le (ToNumber (attr a)) (ToNumber (attr b)) = true
       /\ band a = Some 1%nat /\ band b = Some 0%nat
       /\ ~ (1 <= 0)%nat.
Proof.
  cbv zeta. split; [reflexivity|]. split; [reflexivity|].
  exists (addClass (newTag "38") 1), (addClass (newTag "90") 0).
  split; [in_evaluated|]. split; [in_evaluated|].
  split; [reflexivity|]. split; [reflexivity|]. split; [reflexivity|lia].
Qed.

(** ** C3 *)

(** C3, as the code has it: in a set whose weights are whole numbers of
    magnitude at most 2^31, with at least one band and at most 2^16, an
    item not yet processed that carries the minimum weight is given band 0,
    and one that carries the maximum weight is given the last band when
    some item weighs less.  Within these bounds the rounding of the code's
    doubles stays below the width of a band. *)
Theorem extreme_weights_bands (s : settings) (tags : list tag) (e : tag) :
  (0 < divisions s)%nat ->
  (Z.of_nat (divisions s) <= 2 ^ 16)%Z ->
  Forall (wholeWeightWithin (2 ^ 31)) tags ->
  In e tags ->
  processed e = false ->
  ((forall t, In t tags ->
      le (ToNumber (attr e)) (ToNumber (attr t)) = true) ->
   eachTag s tags e = addClass e 0)
  /\ ((forall t, In t tags ->
         le (ToNumber (attr t)) (ToNumber (attr e)) = true) ->
      (exists t, In t tags
                 /\ lt (ToNumber (attr t)) (ToNumber (attr e)) = true) ->
      eachTag s tags e = addClass e (divisions s - 1)).
Proof.
  intros Hd _ Hwhole He Hp.
  assert (Hne : tags <> []) by (intro E; rewrite E in He; destruct He).
  destruct (whole_weights_ends _ tags Hne Hwhole)
    as (lo & hi & Hmin & Hmax & _ & Hle & _ & (el & Hel & Hwl)
        & (eh & Heh & Hwh) & Hall).
  destruct (Hall e He) as (q & Hq & Hlo & Hhi).
  destruct (eqb_Fin_r _ _ Hwl) as (ql & Hql & Eql).
  destruct (eqb_Fin_r _ _ Hwh) as (qh & Hqh & Eqh).
  assert (Hle' : inject_Z lo <= inject_Z hi) by (rewrite <- Zle_Qle; exact Hle).
  split.
  - intro Hleast.
    apply (eachTag_lowest s tags _ _ Hd Hmin Hmax q); try assumption.
    apply Qle_antisym; [|assumption].
    specialize (Hleast el Hel). rewrite Hq, Hql in Hleast.
    apply NumberFacts.le_Fin in Hleast. rewrite <- Eql. exact Hleast.
  - intros Hgreatest (t & Ht & Hless).
    assert (Eq : q == inject_Z hi).
    { apply Qle_antisym; [assumption|].
      specialize (Hgreatest eh Heh). rewrite Hq, Hqh in Hgreatest.
      apply NumberFacts.le_Fin in Hgreatest. rewrite <- Eqh. exact Hgreatest. }
    destruct (Hall t Ht) as (qt & Hqt & Hlot & _).
    rewrite Hq, Hqt in Hless. apply lt_Fin in Hless.
    assert (Hlt : inject_Z lo < inject_Z hi).
    { apply Qle_lt_trans with qt; [assumption|]. rewrite <- Eq. exact Hless. }
    apply (eachTag_below_edge s tags _ _ Hd Hmin Hmax q e (divisions s));
      try assumption.
    + lia.
    + rewrite edge_d. exact Eq.
Qed.

Lemma extreme_weights_bands_witness :
  eachTag defaults [newTag "11"; newTag "38"; newTag "87"] (newTag "11")
  = addClass (newTag "11") 0
  /\ eachTag defaults [newTag "11"; newTag "38"; newTag "87"] (newTag "87")
     = addClass (newTag "87") (divisions defaults - 1).
Proof.
  assert (Hwhole : Forall (wholeWeightWithin (2 ^ 31))
                     [newTag "11"; newTag "38"; newTag "87"]).
  { repeat constructor.
    - exists 11%Z. split; [lia|split; reflexivity].
    - exists 38%Z. split; [lia|split; reflexivity].
    - exists 87%Z. split; [lia|split; reflexivity]. }
  split.
  - apply (proj1 (extreme_weights_bands defaults
                    [newTag "11"; newTag "38"; newTag "87"] (newTag "11")
                    ltac:(three_bands) ltac:(vm_compute; discriminate)
                    Hwhole ltac:(in_evaluated) eq_refl)).
    intros t [<-|[<-|[<-|[]]]]; reflexivity.
  - apply (proj2 (extreme_weights_bands defaults
                    [newTag "11"; newTag "38"; newTag "87"] (newTag "87")
                    ltac:(three_bands) ltac:(vm_compute; discriminate)
                    Hwhole ltac:(in_evaluated) eq_refl)).
    + intros t [<-|[<-|[<-|[]]]]; reflexivity.
    + exists (newTag "11"). split; [in_evaluated|reflexivity].
Defined.

(** C3 fails as stated, with three bands.  A single item carries the
    maximum weight and is given band 0, not the last band.  Of the items
    9.5 and 10 the lighter one is given band 1: [parseInt] reads 9 for the
    minimum.  And on the code's doubles the weights 2^52 and 2^52 + 1 give
    the boundaries 2^52, 2^52, 2^52 + 1 and 2^52 + 1, so that the heavier
    item is given band 1. *)
Lemma extreme_items_in_other_bands :
  (let tags := [newTag "5"] in
   tagCloud defaults tags = [addClass (newTag "5") 0]
   /\ exists e', In e' (tagCloud defaults tags)
        /\ eqb (ToNumber (attr e')) (max tags) = true
        /\ band e' = Some 0%nat
        /\ band e' <> Some (divisions defaults - 1)%nat)
  /\ (let tags := [newTag "9.5"; newTag "10"] in
      min tags = Fin (inject_Z 9)
      /\ lt (ToNumber (Some "9.5"%string)) (ToNumber (Some "10"%string)) = true
      /\ tagCloud defaults tags
         = [addClass (newTag "9.5") 1; addClass (newTag "10") 2])
  /\ (let weights := [4503599627370496; 4503599627370497]%float in
      Binary64.rangeValues weights 3
      = [Some 4503599627370496; Some 4503599627370496;
         Some 4503599627370497; Some 4503599627370497]%float
      /\ map (Binary64.eachTag weights 3) weights = [[0]; [1]]%nat).
Proof.
  cbv zeta. split; [|split].
  - split; [reflexivity|].
    exists (addClass (newTag "5") 0). split; [in_evaluated|].
    split; [reflexivity|]. split; [reflexivity|discriminate].
  - repeat split; reflexivity.
  - split; vm_compute; reflexivity.
Qed.

(** ** C4 *)




(** ** C5 *)

(** C5, the code at the failing input: two items not yet processed with
    the same weight 12.5 and three bands.  The boundaries collapse to 12,
    which [parseInt] reads, not to 12.5, and no item is given a band. *)
Lemma equal_fractional_weights_get_no_band :
  let tags := [newTag "12.5"; newTag "12.5"] in
  tags <> [] /\ (0 < divisions defaults)%nat /\ Forall fresh tags
  /\ (forall e, In e tags -> eqb (ToNumber (attr e)) (Fin (25 # 2)) = true)
  /\ map (fun k => eqb (JsArray.get (rangeValues defaults tags) k)
                       (Fin (inject_Z 12))) [0; 1; 2; 3]%nat
     = [true; true; true; true]
  /\ tagCloud defaults tags = tags
  /\ forall e', In e' (tagCloud defaults tags) -> band e' = None.
Proof.
  cbv zeta. split; [discriminate|]. split; [three_bands|].
  split; [repeat constructor|]. split; [|split; [|split]].
  - intros e [<-|[<-|[]]]; reflexivity.
  - reflexivity.
  - reflexivity.
  - vm_compute. intros e' [<-|[<-|[]]]; reflexivity.
Qed.

(** ** C6 *)

(** C6: a run on items that all carry the processed marker changes none
    of them: no assignment is altered or added. *)
Theorem rerun_on_processed_changes_nothing (s : settings) (tags : list tag) :
  Forall (fun e => processed e = true) tags ->
  tagCloud s tags = tags.
Proof.
  intro H. rewrite Forall_forall in H.
  apply map_id_on. intros e He. apply eachTag_processed, H, He.
Qed.

Lemma rerun_on_processed_changes_nothing_witness :
  let out := tagCloud defaults [newTag "11"; newTag "38"; newTag "87"] in
  tagCloud defaults out = out.
Proof.
  apply (rerun_on_processed_changes_nothing defaults).
  vm_compute. repeat constructor.
Defined.

(** ** C7 *)

(** C7, as the code has it: on an empty set of items, with no band at
    all, or with a weight that [parseInt] cannot read, the call reports no
    error: it returns, and leaves every item as it was. *)
Theorem malformed_input_returns_unchanged (s : settings) (tags : list tag) :
  tags = [] \/ divisions s = 0%nat
  \/ (exists e, In e tags /\ parseInt10 (attr e) = NaN) ->
  call s tags = Returns tags.
Proof.
  intro H. unfold call. f_equal. unfold tagCloud.
  apply map_id_on. intros e He. apply eachTag_no_match.
  destruct H as [->|[Hd|(e0 & He0 & Hnan)]].
  - destruct He.
  - intros j Hj. lia.
  - intros j Hj.
    destruct (unparsable_weight_ends tags e0 He0 Hnan) as [Hmin Hmax].
    apply inRange_NaN; assumption.
Qed.

Lemma malformed_input_returns_unchanged_witness :
  let tags := [newTag "5"; newTag "many"; newTag "20"] in
  call defaults tags = Returns tags.
Proof.
  apply (malformed_input_returns_unchanged defaults).
  right. right. exists (newTag "many"). split.
  - right. left. reflexivity.
  - reflexivity.
Defined.

(** C7 fails as stated: the call on the empty set of items returns and
    reports no error, and with the weight "12px", which is no number, the
    other two items are classified all the same. *)
Lemma malformed_input_not_reported :
  (forall error, call defaults [] <> Throws error)
  /\ let tags := [newTag "5"; newTag "12px"; newTag "20"] in
     parseInt10 (Some "12px"%string) = Fin (inject_Z 12)
     /\ ToNumber (Some "12px"%string) = NaN
     /\ call defaults tags
        = Returns [addClass (newTag "5") 0; newTag "12px";
                   addClass (newTag "20") 2].
Proof.
  split; [discriminate|]. cbv zeta. repeat split; reflexivity.
Qed.

(** ** C8 *)




(** ** C9 *)

(** C9: with the weights 11, 38 and 87 and the three default bands, the
    boundaries are 11, 109/3 = 36.33..., 185/3 = 61.66... and 87, and the
    items are in the bands 0, 1 and 2. *)
Theorem example_11_38_87 :
  let tags := [newTag "11"; newTag "38"; newTag "87"] in
  divisions defaults = 3%nat
  /\ rangeValues defaults tags
     = [Some (Fin (11 # 1)); Some (Fin (109 # 3)); Some (Fin (185 # 3));
        Some (Fin (87 # 1))]
  /\ (3633 # 100 <= 109 # 3 /\ 109 # 3 < 3634 # 100)
  /\ (6166 # 100 <= 185 # 3 /\ 185 # 3 < 6167 # 100)
  /\ map band (tagCloud defaults tags) = [Some 0; Some 1; Some 2]%nat.
Proof.
  cbv zeta. split; [reflexivity|]. split; [reflexivity|].
  split; [split; unfold Qle, Qlt; simpl; lia|].
  split; [split; unfold Qle, Qlt; simpl; lia|].
  reflexivity.
Qed.

(** ** C10 *)

(** C10: when [parseInt] reads no number from the weight of one item, the
    minimum and the maximum are NaN, the test of every band fails for every
    weight, and the run changes no item: no band and no marker is added. *)
Theorem unparsable_weight_changes_nothing
  (s : settings) (tags : list tag) (e : tag) :
  In e tags ->
  parseInt10 (attr e) = NaN ->
  min tags = NaN /\ max tags = NaN
  /\ (forall w j, (j < divisions s)%nat -> inRange s tags w j = false)
  /\ tagCloud s tags = tags.
Proof.
  intros He Hnan.
  destruct (unparsable_weight_ends tags e He Hnan) as [Hmin Hmax].
  assert (Hno : forall w j, (j < divisions s)%nat -> inRange s tags w j = false).
  { intros w j Hj. apply inRange_NaN; assumption. }
  repeat split; auto.
  unfold tagCloud. apply map_id_on. intros e0 _.
  apply eachTag_no_match. intros j Hj. apply Hno, Hj.
Qed.

Lemma unparsable_weight_changes_nothing_witness :
  let tags := [newTag "5"; newTag "many"; newTag "20"] in
  min tags = NaN /\ max tags = NaN
  /\ (forall w j, (j < divisions defaults)%nat ->
        inRange defaults tags w j = false)
  /\ tagCloud defaults tags = tags.
Proof.
  apply (unparsable_weight_changes_nothing defaults
           [newTag "5"; newTag "many"; newTag "20"] (newTag "many")).
  - right. left. reflexivity.
  - reflexivity.
Defined.

(** * Further properties of the code *)

(** ** Integers written by [attr] and read back *)

Module WrittenIntegers.

Import Decimal.

Local Abbreviation show := DecimalString.NilEmpty.string_of_uint.

Lemma spanDigits_show (u : uint) :
  spanDigits 10 (show u) = (digitsOf u, EmptyString).
Proof.
  induction u; simpl; try reflexivity; rewrite IHu; reflexivity.
Qed.

Lemma digitsOf_value (u : uint) (acc : nat) :
  fold_left (fun a v => a * 10 + v)%Z (digitsOf u) (Z.of_nat acc)
  = Z.of_nat (Nat.of_uint_acc u acc).
Proof.
  revert acc; induction u; intro acc; simpl; try reflexivity;
    rewrite <- IHu; f_equal; rewrite Nat.tail_mul_spec; lia.
Qed.

Lemma mathInt_show (u : uint) :
  mathInt 10 (digitsOf u) = Z.of_nat (Nat.of_uint u).
Proof. exact (digitsOf_value u 0). Qed.

Lemma to_uint_not_Nil (n : nat) : Nat.to_uint n <> Nil.
Proof.
  intro H. pose proof (DecimalNat.Unsigned.of_to n) as Hn.
  rewrite H in Hn. simpl in Hn. subst n. discriminate H.
Qed.

Lemma digitsOf_not_nil (u : uint) : u <> Nil -> digitsOf u <> [].
Proof. destruct u; simpl; congruence. Qed.

Lemma trimStart_show (u : uint) : trimStart (show u) = show u.
Proof. destruct u; reflexivity. Qed.

Lemma signOf_show (u : uint) : signOf (show u) = (1%Z, show u).
Proof. destruct u; reflexivity. Qed.

Lemma parseInt10_show (u : uint) :
  u <> Nil ->
  parseInt10 (Some (show u)) = Fin (inject_Z (Z.of_nat (Nat.of_uint u))).
Proof.
  intro Hu. unfold parseInt10, ToString.
  rewrite trimStart_show, signOf_show, spanDigits_show.
  pose proof (digitsOf_not_nil u Hu) as Hds.
  destruct (digitsOf u) as [|d ds] eqn:E; [congruence|].
  rewrite <- E, mathInt_show. do 2 f_equal. all: lia.
Qed.

Lemma parseInt10_minus_show (u : uint) :
  u <> Nil ->
  parseInt10 (Some (String "-" (show u)))
  = Fin (inject_Z (- Z.of_nat (Nat.of_uint u))).
Proof.
  intro Hu. unfold parseInt10, ToString.
  change (trimStart (String "-" (show u))) with (String "-" (show u)).
  change (signOf (String "-" (show u))) with ((-1)%Z, show u).
  cbv beta iota.
  rewrite spanDigits_show.
  pose proof (digitsOf_not_nil u Hu) as Hds.
  destruct (digitsOf u) as [|d ds] eqn:E; [congruence|].
  rewrite <- E, mathInt_show. do 2 f_equal. all: lia.
Qed.


Lemma strNumericLiteral_show (u : uint) :
  strNumericLiteral (show u) = decimalBranch (show u).
Proof.
  destruct u as [|u|u|u|u|u|u|u|u|u|u]; try reflexivity.
  destruct u; reflexivity.
Qed.

Lemma startsWith_show (u : uint) :
  startsWith "Infinity" (show u) = None.
Proof. destruct u; reflexivity. Qed.

Lemma unsignedDecimal_show (u : uint) :
  u <> Nil ->
  exists q, unsignedDecimal (show u) = Some q
            /\ q == inject_Z (Z.of_nat (Nat.of_uint u)).
Proof.
  intro Hu. unfold unsignedDecimal. rewrite spanDigits_show.
  pose proof (digitsOf_not_nil u Hu) as Hds.
  pose proof (mathInt_show u) as Hm.
  destruct (digitsOf u) as [|d ds] eqn:E; [congruence|].
  simpl exponentPart. cbv iota beta. rewrite app_nil_r, Hm.
  eexists. split; [reflexivity|].
  simpl. ring.
Qed.

Lemma eqb_of_Qeq (p q : Q) : p == q -> eqb (Fin p) (Fin q) = true.
Proof.
  intro H. unfold eqb. simpl.
  apply andb_true_iff. split; apply Qle_bool_iff; rewrite H; apply Qle_refl.
Qed.

Lemma ToNumber_show (u : uint) :
  u <> Nil ->
  eqb (ToNumber (Some (show u)))
      (Fin (inject_Z (Z.of_nat (Nat.of_uint u)))) = true.
Proof.
  intro Hu. unfold ToNumber. rewrite trimStart_show.
  assert (Hs : match show u with
               | EmptyString => Fin 0
               | String _ _ => strNumericLiteral (show u)
               end = decimalBranch (show u)).
  { rewrite <- strNumericLiteral_show. destruct u; try reflexivity. congruence. }
  cbv zeta. rewrite Hs. unfold decimalBranch.
  rewrite signOf_show, startsWith_show.
  destruct (unsignedDecimal_show u Hu) as (q & -> & Hq).
  apply eqb_of_Qeq. rewrite Hq. ring.
Qed.

Lemma ToNumber_minus_show (u : uint) :
  u <> Nil ->
  eqb (ToNumber (Some (String "-" (show u))))
      (Fin (inject_Z (- Z.of_nat (Nat.of_uint u)))) = true.
Proof.
  intro Hu.
  change (ToNumber (Some (String "-" (show u))))
    with (decimalBranch (String "-" (show u))).
  unfold decimalBranch.
  change (signOf (String "-" (show u))) with ((-1)%Z, show u).
  cbv iota beta. rewrite startsWith_show.
  destruct (unsignedDecimal_show u Hu) as (q & -> & Hq).
  apply eqb_of_Qeq. rewrite Hq, inject_Z_opp. ring.
Qed.

Lemma read_back (z : Z) :
  parseInt10 (Some (IntegerToString z)) = Fin (inject_Z z)
  /\ eqb (ToNumber (Some (IntegerToString z))) (Fin (inject_Z z)) = true.
Proof.
  unfold IntegerToString.
  pose proof (to_uint_not_Nil (Z.abs_nat z)) as Hu.
  pose proof (DecimalNat.Unsigned.of_to (Z.abs_nat z)) as Hn.
  destruct (Z.ltb_spec z 0) as [Hneg|Hpos].
  - rewrite (parseInt10_minus_show _ Hu).
    pose proof (ToNumber_minus_show _ Hu) as Ht.
    rewrite Hn in *.
    replace (- Z.of_nat (Z.abs_nat z))%Z with z in * by lia. auto.
  - rewrite (parseInt10_show _ Hu).
    pose proof (ToNumber_show _ Hu) as Ht.
    rewrite Hn in *.
    replace (Z.of_nat (Z.abs_nat z)) with z in * by lia. auto.
Qed.

End WrittenIntegers.

(** ** The parsed weights, the two ends and the boundaries *)


Lemma weights_parsed_finite (tags : list tag) :
  Forall (fun e => parseInt10 (attr e) <> NaN) tags ->
  Forall finite (weights tags).
Proof.
  intro H. unfold weights. apply Forall_map.
  apply (Forall_impl _ (P := fun e => parseInt10 (attr e) <> NaN));
    [|exact H].
  intros e He. destruct (parseInt10_cases (attr e)) as [E|[z E]];
    [congruence|]. exists (inject_Z z). exact E.
Qed.

Lemma weights_not_nil (tags : list tag) : tags <> [] -> weights tags <> [].
Proof. unfold weights. destruct tags; [congruence|discriminate]. Qed.

(** X3: when every weight is parsed, [min] and [max] are entries of
    [weights], and every entry lies between them. *)
Theorem min_max_are_extremes (tags : list tag) :
  tags <> [] ->
  Forall (fun e => parseInt10 (attr e) <> NaN) tags ->
  In (min tags) (weights tags) /\ In (max tags) (weights tags)
  /\ forall w, In w (weights tags) ->
       le (min tags) w = true /\ le w (max tags) = true.
Proof.
  intros Hne Hparsed.
  pose proof (weights_parsed_finite tags Hparsed) as Hfin.
  pose proof (weights_not_nil tags Hne) as Hw.
  destruct (NumberFacts.Math_min_Fin _ Hw Hfin) as (lo & Hmin & Hlo & Hlow).
  destruct (NumberFacts.Math_max_Fin _ Hw Hfin) as (hi & Hmax & Hhi & Hupp).
  unfold min, max. rewrite Hmin, Hmax. repeat split; auto.
  - rewrite Forall_forall in Hfin. destruct (Hfin w H) as [q ->].
    apply NumberFacts.le_Fin. auto.
  - rewrite Forall_forall in Hfin. destruct (Hfin w H) as [q ->].
    apply NumberFacts.le_Fin. auto.
Qed.

Lemma min_max_are_extremes_witness :
  let tags := [newTag "38"; newTag "11"; newTag "87"] in
  In (min tags) (weights tags) /\ In (max tags) (weights tags)
  /\ forall w, In w (weights tags) ->
       le (min tags) w = true /\ le w (max tags) = true.
Proof.
  apply (min_max_are_extremes [newTag "38"; newTag "11"; newTag "87"]).
  - discriminate.
  - repeat constructor; discriminate.
Defined.

(** X4: [rangeValues] always has [divisions + 1] entries and no hole, so
    the test of line 130 never reads an undefined boundary; with no class
    at all its one entry is the maximum, written over the minimum. *)
Theorem rangeValues_has_no_hole (s : settings) (tags : list tag) :
  List.length (rangeValues s tags) = S (divisions s)
  /\ Forall (fun x => x <> None) (rangeValues s tags)
  /\ (divisions s = 0%nat -> rangeValues s tags = [Some (max tags)]).
Proof.
  rewrite rangeValues_closed. split; [|split].
  - rewrite length_map, length_seq. reflexivity.
  - apply Forall_map, Forall_forall. intros k _. discriminate.
  - intro H. rewrite H. simpl. unfold boundary. rewrite H. reflexivity.
Qed.

Lemma ends_of_parsed (tags : list tag) :
  tags <> [] ->
  Forall (fun e => parseInt10 (attr e) <> NaN) tags ->
  exists lo hi, min tags = Fin lo /\ max tags = Fin hi /\ lo <= hi.
Proof.
  intros Hne Hparsed.
  destruct (min_max_cases tags Hne)
    as [[Hmin _]|(lo & hi & Hmin & Hmax & Hle & _)]; [|eauto].
  exfalso.
  pose proof (weights_parsed_finite tags Hparsed) as Hfin.
  destruct (NumberFacts.Math_min_Fin _ (weights_not_nil tags Hne) Hfin)
    as (lo & Hlo & _).
  unfold min in Hmin. congruence.
Qed.

(** X5: when every weight parses to a whole number of magnitude at most
    2^52, the boundaries never decrease. *)
Theorem rangeValues_sorted (s : settings) (tags : list tag) (i j : nat) :
  tags <> [] ->
  Forall (parsesWithin (2 ^ 52)) tags ->
  (i <= j <= divisions s)%nat ->
  le (JsArray.get (rangeValues s tags) i)
     (JsArray.get (rangeValues s tags) j) = true.
Proof.
  intros Hne Hparsed Hij.
  destruct (ends_of_parsed tags Hne (parsesWithin_parsed _ _ Hparsed))
    as (lo & hi & Hmin & Hmax & Hle).
  rewrite !get_rangeValues by lia.
  destruct (Nat.eq_dec (divisions s) 0) as [Hd0|Hd0].
  - assert (i = 0%nat) by lia. assert (j = 0%nat) by lia. subst i j.
    unfold boundary. rewrite Hd0. simpl. rewrite Hmax.
    apply NumberFacts.le_Fin, Qle_refl.
  - assert (Hd : (0 < divisions s)%nat) by lia.
    rewrite !(boundary_finite s tags lo hi _ Hd Hmin Hmax).
    apply NumberFacts.le_Fin. apply edge_mono; assumption.
Qed.

Lemma rangeValues_sorted_witness :
  let tags := [newTag "11"; newTag "38"; newTag "87"] in
  le (JsArray.get (rangeValues defaults tags) 1)
     (JsArray.get (rangeValues defaults tags) 2) = true.
Proof.
  apply (rangeValues_sorted defaults [newTag "11"; newTag "38"; newTag "87"]).
  - discriminate.
  - repeat constructor.
    + exists 11%Z. split; [lia|reflexivity].
    + exists 38%Z. split; [lia|reflexivity].
    + exists 87%Z. split; [lia|reflexivity].
  - three_bands.
Defined.

(** ** What a run does to one tag *)

(** X6: a run never writes the weight, never removes a class or the
    marker, and gives a tag at most one class: either the tag is left as
    it was, or it was unmarked and gets the marker and the class of one
    band whose range holds its weight. *)
Theorem run_adds_at_most_one_band (s : settings) (tags : list tag) (e : tag) :
  eachTag s tags e = e
  \/ (processed e = false
      /\ exists j, (j < divisions s)%nat
                   /\ inRange s tags (attr e) j = true
                   /\ eachTag s tags e
                      = {| attr := attr e; processed := true;
                           bands := bands e ++ [j] |}).
Proof.
  destruct (processed e) eqn:Hp.
  - left. apply eachTag_processed, Hp.
  - rewrite (eachTag_unprocessed s tags e Hp).
    destruct (find _ _) as [j|] eqn:Hf; [right|left; reflexivity].
    destruct (find_seq_first _ _ _ _ Hf) as (Hj & Hin & _).
    split; [reflexivity|]. exists j. repeat split; auto. lia.
Qed.

(** X7: for a positive number of bands, when every weight parses to a
    whole number of magnitude at most 2^52, an unmarked tag of the set
    whose weight the comparisons read as a double of magnitude at most 2^53
    is classified exactly when this weight lies between the minimum and the
    maximum of the parsed weights. *)
Theorem classified_iff_between_ends
  (s : settings) (tags : list tag) (e : tag) (q : Q) :
  (0 < divisions s)%nat ->
  In e tags ->
  processed e = false ->
  Forall (parsesWithin (2 ^ 52)) tags ->
  ToNumber (attr e) = Fin q ->
  exactDouble q ->
  (processed (eachTag s tags e) = true
   <-> le (min tags) (Fin q) && le (Fin q) (max tags) = true).
Proof.
  intros Hd He Hp Hparsed Hq _.
  assert (Hne : tags <> []) by (intro E; rewrite E in He; destruct He).
  destruct (ends_of_parsed tags Hne (parsesWithin_parsed _ _ Hparsed))
    as (lo & hi & Hmin & Hmax & Hle).
  rewrite Hmin, Hmax. split.
  - intro Hdone. rewrite (eachTag_unprocessed s tags e Hp) in Hdone.
    destruct (find _ _) as [j|] eqn:Hf; [|congruence].
    destruct (first_match_inv s tags _ _ Hne Hf)
      as (lo' & hi' & q' & Hmin' & Hmax' & _ & Hq' & Hj & H1 & H2 & _).
    rewrite Hmin in Hmin'. rewrite Hmax in Hmax'. rewrite Hq in Hq'.
    injection Hmin' as <-. injection Hmax' as <-. injection Hq' as <-.
    simpl. apply andb_true_iff. split; apply Qle_bool_iff.
    + apply Qle_trans with (edge lo hi (divisions s) j); [|assumption].
      rewrite <- (edge_0 lo hi (divisions s) Hd) at 1.
      apply edge_mono; [assumption|assumption|lia].
    + apply Qle_trans with (edge lo hi (divisions s) (S j)); [assumption|].
      rewrite <- (edge_d lo hi (divisions s)) at 2.
      apply edge_mono; [assumption|assumption|lia].
  - intro Hin. simpl in Hin. apply andb_true_iff in Hin.
    destruct Hin as [Hlo Hhi]. apply Qle_bool_iff in Hlo, Hhi.
    destruct (eachTag_in_range s tags lo hi q e Hd Hp Hmin Hmax Hq Hlo Hhi)
      as (j & _ & ->).
    reflexivity.
Qed.

Lemma classified_iff_between_ends_witness :
  processed (eachTag defaults [newTag "10"; newTag "12.5"] (newTag "12.5"))
  = true
  <-> le (min [newTag "10"; newTag "12.5"]) (Fin (125 # 10))
      && le (Fin (125 # 10)) (max [newTag "10"; newTag "12.5"]) = true.
Proof.
  apply (classified_iff_between_ends defaults
           [newTag "10"; newTag "12.5"] (newTag "12.5") (125 # 10)).
  - three_bands.
  - right. left. reflexivity.
  - reflexivity.
  - repeat constructor.
    + exists 10%Z. split; [lia|reflexivity].
    + exists 12%Z. split; [lia|reflexivity].
  - reflexivity.
  - exists 25%Z, 1%Z. split; [lia|]. split; [lia|reflexivity].
Defined.

Lemma find_pointwise {A : Type} (f g : A -> bool) (l : list A) :
  (forall x, f x = g x) -> find f l = find g l.
Proof.
  intro H. induction l as [|x l IH]; simpl; [reflexivity|].
  rewrite H, IH. reflexivity.
Qed.

Lemma le_of_eqb_l (a b c : number) : eqb a b = true -> le a c = le b c.
Proof.
  unfold eqb. intro H. apply andb_true_iff in H. destruct H as [H1 H2].
  destruct a as [| | |p], b as [| | |q]; simpl in *; try discriminate;
    try reflexivity.
  destruct c as [| | |r]; simpl; try reflexivity.
  apply Qle_bool_iff in H1, H2.
  destruct (Qle_bool p r) eqn:Ep, (Qle_bool q r) eqn:Eq; try reflexivity.
  - apply Qle_bool_iff in Ep.
    assert (Hqr : q <= r) by (eapply Qle_trans; eassumption).
    apply Qle_bool_iff in Hqr. congruence.
  - apply Qle_bool_iff in Eq.
    assert (Hpr : p <= r) by (eapply Qle_trans; eassumption).
    apply Qle_bool_iff in Hpr. congruence.
Qed.

Lemma le_of_eqb_r (a b c : number) : eqb a b = true -> le c a = le c b.
Proof.
  unfold eqb. intro H. apply andb_true_iff in H. destruct H as [H1 H2].
  destruct a as [| | |p], b as [| | |q]; simpl in *; try discriminate;
    try reflexivity; destruct c as [| | |r]; simpl; try reflexivity.
  apply Qle_bool_iff in H1, H2.
  destruct (Qle_bool r p) eqn:Ep, (Qle_bool r q) eqn:Eq; try reflexivity.
  - apply Qle_bool_iff in Ep.
    assert (Hrq : r <= q) by (eapply Qle_trans; eassumption).
    apply Qle_bool_iff in Hrq. congruence.
  - apply Qle_bool_iff in Eq.
    assert (Hrp : r <= p) by (eapply Qle_trans; eassumption).
    apply Qle_bool_iff in Hrp. congruence.
Qed.

(** X8: the band depends on the weight only: two fresh tags whose weights
    compare equal, however they are written, are given the same band or
    both none. *)
Theorem equal_weights_same_band (s : settings) (tags : list tag) (e1 e2 : tag) :
  fresh e1 -> fresh e2 ->
  eqb (ToNumber (attr e1)) (ToNumber (attr e2)) = true ->
  band (eachTag s tags e1) = band (eachTag s tags e2).
Proof.
  intros Hf1 Hf2 Heq.
  rewrite (eachTag_unprocessed s tags e1 (proj1 Hf1)).
  rewrite (eachTag_unprocessed s tags e2 (proj1 Hf2)).
  rewrite (find_pointwise (inRange s tags (attr e1)) (inRange s tags (attr e2))).
  - destruct (find _ _) as [j|].
    + rewrite !band_addClass_fresh by assumption. reflexivity.
    + unfold band. rewrite (proj2 Hf1), (proj2 Hf2). reflexivity.
  - intro j. unfold inRange, ge.
    rewrite (le_of_eqb_r _ _ _ Heq), (le_of_eqb_l _ _ _ Heq). reflexivity.
Qed.

Lemma equal_weights_same_band_witness :
  let tags := [newTag "11"; newTag " 38"; newTag "3.8e1"; newTag "87"] in
  band (eachTag defaults tags (newTag " 38"))
  = band (eachTag defaults tags (newTag "3.8e1")).
Proof.
  apply equal_weights_same_band.
  - split; reflexivity.
  - split; reflexivity.
  - reflexivity.
Defined.

(** ** The order of the tags *)

Section Order.

Import NumberFacts.

Lemma whole_finite (ws : list number) :
  Forall whole ws -> ~ In NaN ws -> Forall finite ws.
Proof.
  intros Hw Hnan. apply Forall_forall. intros w Hin.
  rewrite Forall_forall in Hw. destruct (Hw w Hin) as [->|[z ->]].
  - contradiction.
  - exists (inject_Z z). reflexivity.
Qed.

Lemma whole_eq (ws : list number) (p q : Q) :
  Forall whole ws -> In (Fin p) ws -> In (Fin q) ws ->
  p <= q -> q <= p -> p = q.
Proof.
  intros Hw Hp Hq Hpq Hqp. rewrite Forall_forall in Hw.
  destruct (Hw _ Hp) as [E|[z E]]; [discriminate|]. injection E as ->.
  destruct (Hw _ Hq) as [E|[z' E]]; [discriminate|]. injection E as ->.
  rewrite <- Zle_Qle in Hpq, Hqp. f_equal. lia.
Qed.

Lemma In_NaN_dec (ws : list number) : In NaN ws \/ ~ In NaN ws.
Proof.
  induction ws as [|w ws IH]; [right; intros []|].
  destruct w; try (left; left; reflexivity);
    destruct IH as [H|H]; try (left; right; exact H);
    right; intros [E|E]; try discriminate; contradiction.
Qed.

Lemma ends_permutation (ws ws' : list number) :
  Forall whole ws -> Permutation ws ws' ->
  Math_max ws = Math_max ws' /\ Math_min ws = Math_min ws'.
Proof.
  intros Hw Hperm.
  assert (Hw' : Forall whole ws').
  { apply Forall_forall. intros w Hin. rewrite Forall_forall in Hw.
    apply Hw. apply (Permutation_in _ (Permutation_sym Hperm)). exact Hin. }
  destruct (In_NaN_dec ws) as [Hnan|Hnan].
  - pose proof (Permutation_in _ Hperm Hnan) as Hnan'.
    rewrite !Math_max_NaN, !Math_min_NaN by assumption. auto.
  - assert (Hnan' : ~ In NaN ws').
    { intro H. apply Hnan.
      apply (Permutation_in _ (Permutation_sym Hperm)). exact H. }
    destruct ws as [|w0 ws0] eqn:E.
    { apply Permutation_nil in Hperm. subst ws'. auto. }
    rewrite <- E in *.
    assert (Hne : ws <> []) by (rewrite E; discriminate).
    assert (Hne' : ws' <> []).
    { intro H. rewrite H in Hperm. apply Permutation_sym in Hperm.
      apply Permutation_nil in Hperm. contradiction. }
    pose proof (whole_finite ws Hw Hnan) as Hfin.
    pose proof (whole_finite ws' Hw' Hnan') as Hfin'.
    destruct (Math_max_Fin _ Hne Hfin) as (hi & -> & Hhi & Hupp).
    destruct (Math_max_Fin _ Hne' Hfin') as (hi' & -> & Hhi' & Hupp').
    destruct (Math_min_Fin _ Hne Hfin) as (lo & -> & Hlo & Hlow).
    destruct (Math_min_Fin _ Hne' Hfin') as (lo' & -> & Hlo' & Hlow').
    pose proof (Permutation_in _ Hperm Hhi) as Hhi2.
    pose proof (Permutation_in _ Hperm Hlo) as Hlo2.
    split; f_equal.
    + apply (whole_eq ws' hi hi' Hw' Hhi2 Hhi'); auto.
      apply Hupp. apply (Permutation_in _ (Permutation_sym Hperm)). exact Hhi'.
    + apply (whole_eq ws' lo lo' Hw' Hlo2 Hlo'); auto.
      apply Hlow. apply (Permutation_in _ (Permutation_sym Hperm)). exact Hlo'.
Qed.

Lemma eachTag_ends_ext (s : settings) (tags tags' : list tag) (e : tag) :
  max tags = max tags' -> min tags = min tags' ->
  eachTag s tags e = eachTag s tags' e.
Proof.
  unfold eachTag, tryBand, inRange, rangeValues, rangeSize.
  intros -> ->. reflexivity.
Qed.

End Order.

(** X9: the order of the tags in the container does not matter: listed in
    another order they give the same minimum and maximum, and every tag
    fares the same. *)
Theorem classification_ignores_order
  (s : settings) (tags tags' : list tag) (e : tag) :
  Permutation tags tags' ->
  min tags = min tags' /\ max tags = max tags'
  /\ eachTag s tags e = eachTag s tags' e.
Proof.
  intro Hperm.
  assert (Hw : Permutation (weights tags) (weights tags')).
  { unfold weights. apply Permutation_map. exact Hperm. }
  assert (Hwhole : Forall whole (weights tags)).
  { unfold weights. apply Forall_map, Forall_forall.
    intros x _. apply parseInt10_cases. }
  destruct (ends_permutation _ _ Hwhole Hw) as [Hmax Hmin].
  repeat split; try assumption.
  apply eachTag_ends_ext; assumption.
Qed.

Lemma classification_ignores_order_witness :
  let tags := [newTag "11"; newTag "38"; newTag "87"] in
  let tags' := [newTag "87"; newTag "11"; newTag "38"] in
  min tags = min tags' /\ max tags = max tags'
  /\ eachTag defaults tags (newTag "38")
     = eachTag defaults tags' (newTag "38").
Proof.
  apply classification_ignores_order.
  apply Permutation_sym.
  apply (Permutation_cons_app [newTag "11"; newTag "38"] []).
  apply Permutation_refl.
Defined.

(** X10: with exactly one class the boundaries are the minimum and the
    maximum, and every fresh tag with an integer weight is in band 0. *)
Theorem one_class_one_band (s : settings) (tags : list tag) :
  divisions s = 1%nat ->
  rangeValues s tags = [Some (min tags); Some (max tags)]
  /\ (Forall fresh tags -> Forall integerWeight tags ->
      forall e', In e' (tagCloud s tags) -> band e' = Some 0%nat).
Proof.
  intro Hd1. split.
  - rewrite rangeValues_closed, Hd1. simpl. unfold boundary. rewrite Hd1.
    reflexivity.
  - intros Hfresh Hint e' He'.
    destruct (tagCloud_inv s tags e' He') as (e & He & ->).
    assert (Hne : tags <> []) by (intro E; rewrite E in He; destruct He).
    destruct (integer_weights_between tags Hne Hint)
      as (lo & hi & Hmin & Hmax & Hle & Hall).
    destruct (Hall e He) as (q & Hq & Hlo & Hhi).
    rewrite Forall_forall in Hfresh. pose proof (Hfresh e He) as Hfe.
    assert (Hd : (0 < divisions s)%nat) by lia.
    destruct (eachTag_in_range s tags lo hi q e Hd (proj1 Hfe)
                Hmin Hmax Hq Hlo Hhi) as (j & Hj & ->).
    rewrite band_addClass_fresh by assumption. f_equal. lia.
Qed.

Lemma one_class_one_band_witness :
  let s := mkSettings ["tag"%string] "processed" ".tag-cloud-tag"
             "data-tag-weight" in
  let tags := [newTag "11"; newTag "38"; newTag "87"] in
  rangeValues s tags = [Some (min tags); Some (max tags)]
  /\ (Forall fresh tags -> Forall integerWeight tags ->
      forall e', In e' (tagCloud s tags) -> band e' = Some 0%nat).
Proof.
  apply one_class_one_band. reflexivity.
Defined.

(** X11: a second run on the tags of a container leaves the result of the
    first run as it is, whatever the tags and the settings: no tag gets a
    second class. *)
Theorem second_run_changes_nothing (s : settings) (tags : list tag) :
  tagCloud s (tagCloud s tags) = tagCloud s tags.
Proof. apply tagCloud_idempotent. Qed.

(** ** The whole call: containers over one document *)

Module DocumentFacts.

Import Document.

Lemma length_modify (doc : document) (i : nat) (f : tag -> tag) :
  List.length (modify doc i f) = List.length doc.
Proof.
  revert i; induction doc as [|e r IH]; intros [|i]; simpl; auto.
Qed.

Lemma nth_error_modify_same (doc : document) (i : nat) (f : tag -> tag) :
  nth_error (modify doc i f) i = option_map f (nth_error doc i).
Proof.
  revert i; induction doc as [|e r IH]; intros [|i]; simpl; auto.
Qed.

Lemma nth_error_modify_other (doc : document) (i k : nat) (f : tag -> tag) :
  k <> i -> nth_error (modify doc i f) k = nth_error doc k.
Proof.
  revert i k; induction doc as [|e r IH]; intros [|i] [|k] H; simpl; auto.
  congruence.
Qed.

Lemma map_attr_modify (doc : document) (i : nat) (f : tag -> tag) :
  (forall e, attr (f e) = attr e) ->
  map attr (modify doc i f) = map attr doc.
Proof.
  intro H. revert i; induction doc as [|e r IH]; intros [|i]; simpl;
    try rewrite H; try rewrite IH; reflexivity.
Qed.

Lemma found_cons (doc : document) (i : nat) (c : container) :
  found doc (i :: c)
  = match nth_error doc i with
    | Some e => [e]
    | None => []
    end ++ found doc c.
Proof. reflexivity. Qed.

Section Visit.

Variable g : tag -> tag.

Lemma visit_cons (i : nat) (c : container) (doc : document) :
  visit g (i :: c) doc = visit g c (modify doc i g).
Proof. reflexivity. Qed.

Lemma length_visit (c : container) (doc : document) :
  List.length (visit g c doc) = List.length doc.
Proof.
  revert doc; induction c as [|i c IH]; intro doc; [reflexivity|].
  rewrite visit_cons, IH. apply length_modify.
Qed.

Lemma map_attr_visit (c : container) (doc : document) :
  (forall e, attr (g e) = attr e) ->
  map attr (visit g c doc) = map attr doc.
Proof.
  intro H. revert doc; induction c as [|i c IH]; intro doc; [reflexivity|].
  rewrite visit_cons, IH. apply map_attr_modify, H.
Qed.

Hypothesis g_idempotent : forall e, g (g e) = g e.

(** Each position listed is handed to the callback, the others stay;
    listing a position twice changes nothing more. *)
Lemma nth_error_visit (c : container) (doc : document) (k : nat) :
  nth_error (visit g c doc) k
  = option_map (fun e => if in_dec Nat.eq_dec k c then g e else e)
               (nth_error doc k).
Proof.
  revert doc; induction c as [|i c IH]; intro doc.
  - simpl. destruct (nth_error doc k); reflexivity.
  - rewrite visit_cons, IH.
    destruct (Nat.eq_dec i k) as [E|Hne]; [subst i|].
    + rewrite nth_error_modify_same.
      destruct (nth_error doc k) as [e|]; simpl; [|reflexivity].
      destruct (Nat.eq_dec k k) as [Hkk|Hkk]; [|congruence].
      destruct (in_dec Nat.eq_dec k c); [rewrite g_idempotent|]; reflexivity.
    + rewrite nth_error_modify_other by congruence.
      destruct (nth_error doc k) as [e|]; simpl; [|reflexivity].
      destruct (Nat.eq_dec i k) as [Hik|Hik]; [congruence|].
      destruct (in_dec Nat.eq_dec k c); reflexivity.
Qed.

Lemma found_visit_inside (c c0 : container) (doc : document) :
  (forall i, In i c0 -> In i c) ->
  found (visit g c doc) c0 = map g (found doc c0).
Proof.
  unfold found. induction c0 as [|i c0 IH]; intro H; [reflexivity|].
  simpl. rewrite map_app, IH by (intros j Hj; apply H; right; exact Hj).
  f_equal. rewrite nth_error_visit.
  destruct (nth_error doc i) as [e|]; simpl; [|reflexivity].
  destruct (in_dec Nat.eq_dec i c) as [_|Hn]; [reflexivity|].
  exfalso. apply Hn, H. left. reflexivity.
Qed.

Lemma found_visit_outside (c c0 : container) (doc : document) :
  (forall i, In i c0 -> ~ In i c) ->
  found (visit g c doc) c0 = found doc c0.
Proof.
  unfold found. induction c0 as [|i c0 IH]; intro H; [reflexivity|].
  simpl. rewrite IH by (intros j Hj; apply H; right; exact Hj).
  f_equal. rewrite nth_error_visit.
  destruct (nth_error doc i) as [e|]; simpl; [|reflexivity].
  destruct (in_dec Nat.eq_dec i c) as [Hin|_]; [|reflexivity].
  exfalso. apply (H i); [left; reflexivity|exact Hin].
Qed.

End Visit.

Lemma eachContainer_plain (cfg : config) (random : nat -> Q)
  (doc : document) (n : nat) (c : container) :
  randomWeights cfg = false ->
  eachContainer cfg random (doc, n) c
  = (visit (eachTag (settingsOf cfg) (found doc c)) c doc, n).
Proof. intro H. unfold eachContainer. rewrite H. reflexivity. Qed.

End DocumentFacts.

(** X12: without random weights, the callback of [this.each] leaves the
    tags of its container as the classification of those tags alone gives
    them, and touches no tag outside the container. *)
Theorem container_classified_alone (cfg : config) (random : nat -> Q)
  (doc : Document.document) (n : nat) (c : Document.container) :
  randomWeights cfg = false ->
  let after := Document.eachContainer cfg random (doc, n) c in
  Document.found (fst after) c
  = tagCloud (settingsOf cfg) (Document.found doc c)
  /\ List.length (fst after) = List.length doc
  /\ snd after = n
  /\ forall k, ~ In k c -> nth_error (fst after) k = nth_error doc k.
Proof.
  intro Hr. cbv zeta. rewrite (DocumentFacts.eachContainer_plain _ _ _ _ _ Hr).
  simpl. split; [|split; [|split]].
  - apply DocumentFacts.found_visit_inside; [apply eachTag_idempotent|auto].
  - apply DocumentFacts.length_visit.
  - reflexivity.
  - intros k Hk.
    rewrite DocumentFacts.nth_error_visit by apply eachTag_idempotent.
    destruct (nth_error doc k) as [e|]; simpl; [|reflexivity].
    destruct (in_dec Nat.eq_dec k c); [contradiction|reflexivity].
Qed.

Lemma container_classified_alone_witness :
  let doc := [newTag "50"; newTag "11"; newTag "38"; newTag "87"] in
  let after := Document.eachContainer (extend (mkOverrides None None None None None))
                 (fun _ => 0) (doc, 0%nat) [1; 2; 3]%nat in
  Document.found (fst after) [1; 2; 3]%nat
  = tagCloud defaults (Document.found doc [1; 2; 3]%nat)
  /\ List.length (fst after) = List.length doc
  /\ snd after = 0%nat
  /\ forall k, ~ In k [1; 2; 3]%nat -> nth_error (fst after) k = nth_error doc k.
Proof.
  apply (container_classified_alone
           (extend (mkOverrides None None None None None))).
  reflexivity.
Defined.

Module CallFacts.

Import Document DocumentFacts.

Lemma tagCloudCall_plain (o : overrides) (random : nat -> Q)
  (this : list container) (doc : document) (n : nat) :
  randomWeights (extend o) = false ->
  tagCloudCall o random this (doc, n)
  = (plainCall (settingsOf (extend o)) this doc, n).
Proof.
  intro Hr. unfold tagCloudCall, plainCall.
  revert doc; induction this as [|c this IH]; intro doc; [reflexivity|].
  simpl. rewrite (eachContainer_plain _ _ _ _ _ Hr). apply IH.
Qed.

Lemma visit_ext (g g' : tag -> tag) (c : container) (doc : document) :
  (forall e, g e = g' e) -> visit g c doc = visit g' c doc.
Proof.
  intro H. unfold visit. revert doc; induction c as [|i c IH]; intro doc;
    [reflexivity|].
  simpl. rewrite IH. f_equal.
  clear IH. revert i; induction doc as [|e r IHd]; intros [|i]; simpl;
    try rewrite H; try rewrite IHd; reflexivity.
Qed.

Lemma weights_found (doc doc' : document) (c : container) :
  map attr doc = map attr doc' ->
  weights (found doc c) = weights (found doc' c).
Proof.
  intro H. unfold weights, found.
  induction c as [|i c IH]; [reflexivity|].
  simpl. rewrite !map_app, IH. f_equal.
  assert (Hi : nth_error (map attr doc) i = nth_error (map attr doc') i)
    by (rewrite H; reflexivity).
  rewrite !nth_error_map in Hi.
  destruct (nth_error doc i) as [e|], (nth_error doc' i) as [e'|];
    simpl in *; try discriminate; [|reflexivity].
  injection Hi as ->. reflexivity.
Qed.

(** The weights are never written, so the callback of a container is the
    same whenever the container is reached. *)
Lemma plainCall_callWith (s : settings) (doc0 : document)
  (this : list container) (doc : document) :
  map attr doc = map attr doc0 ->
  plainCall s this doc
  = callWith (fun c => eachTag s (found doc0 c)) this doc.
Proof.
  unfold plainCall, callWith.
  revert doc; induction this as [|c this IH]; intros doc H; [reflexivity|].
  simpl.
  assert (Hv : visit (eachTag s (found doc c)) c doc
               = visit (eachTag s (found doc0 c)) c doc).
  { apply visit_ext. intro e. apply eachTag_weights_ext.
    apply weights_found. exact H. }
  rewrite Hv. apply IH.
  rewrite map_attr_visit; [exact H|]. intro e. apply attr_eachTag.
Qed.

Section Through.

Variable G : container -> tag -> tag.
Hypothesis G_idempotent : forall c e, G c (G c e) = G c e.
Hypothesis G_skips_marked : forall c e, processed e = true -> G c e = e.
Hypothesis G_marks : forall c e, G c e = e \/ processed (G c e) = true.

Lemma nth_error_callWith (this : list container) (doc : document) (k : nat) :
  nth_error (callWith G this doc) k
  = option_map (through G k this) (nth_error doc k).
Proof.
  unfold callWith, through.
  revert doc; induction this as [|c this IH]; intro doc.
  - simpl. destruct (nth_error doc k); reflexivity.
  - simpl. rewrite IH, nth_error_visit by apply G_idempotent.
    destruct (nth_error doc k); reflexivity.
Qed.

Lemma through_marked (k : nat) (this : list container) (e : tag) :
  processed e = true -> through G k this e = e.
Proof.
  intro Hp. unfold through. induction this as [|c this IH]; [reflexivity|].
  simpl. destruct (in_dec Nat.eq_dec k c); [rewrite G_skips_marked|];
    assumption.
Qed.

Lemma through_outside (k : nat) (this : list container) (e : tag) :
  (forall c, In c this -> ~ In k c) -> through G k this e = e.
Proof.
  unfold through. induction this as [|c this IH]; intro H; [reflexivity|].
  simpl. destruct (in_dec Nat.eq_dec k c) as [Hin|_].
  - exfalso. apply (H c); [left; reflexivity|exact Hin].
  - apply IH. intros c' Hc'. apply H. right. exact Hc'.
Qed.

Lemma through_cases (k : nat) (this : list container) (e : tag) :
  through G k this e = e \/ processed (through G k this e) = true.
Proof.
  revert e; induction this as [|c this IH]; intro e; [left; reflexivity|].
  change (through G k (c :: this) e)
    with (through G k this (if in_dec Nat.eq_dec k c then G c e else e)).
  destruct (in_dec Nat.eq_dec k c) as [Hin|Hout]; [|apply IH].
  destruct (G_marks c e) as [->|Hm]; [apply IH|].
  right. rewrite through_marked; assumption.
Qed.

Lemma through_idempotent (k : nat) (this : list container) (e : tag) :
  through G k this (through G k this e) = through G k this e.
Proof.
  destruct (through_cases k this e) as [He|Hm].
  - rewrite !He. reflexivity.
  - apply through_marked, Hm.
Qed.

Lemma through_disjoint (k : nat) (this : list container) (c : container)
  (e : tag) :
  ForallOrdPairs (fun c1 c2 => forall i, In i c1 -> ~ In i c2) this ->
  In c this -> In k c ->
  through G k this e = G c e.
Proof.
  intros Hpairs. revert e.
  induction Hpairs as [|c1 rest Hfirst Hrest IH]; intros e Hc Hk;
    [destruct Hc|].
  change (through G k (c1 :: rest) e)
    with (through G k rest (if in_dec Nat.eq_dec k c1 then G c1 e else e)).
  rewrite Forall_forall in Hfirst.
  destruct Hc as [->|Hc].
  - destruct (in_dec Nat.eq_dec k c) as [_|Hn]; [|contradiction].
    apply through_outside. intros c' Hc'. apply Hfirst; assumption.
  - destruct (in_dec Nat.eq_dec k c1) as [Hin|_]; [|apply IH; assumption].
    exfalso. apply (Hfirst c Hc k Hin Hk).
Qed.

End Through.

Section Classifier.

Variable s : settings.
Variable doc0 : document.

Local Abbreviation classifier := (classifier s doc0).

Lemma classifier_idempotent (c : container) (e : tag) :
  classifier c (classifier c e) = classifier c e.
Proof. apply eachTag_idempotent. Qed.

Lemma classifier_skips_marked (c : container) (e : tag) :
  processed e = true -> classifier c e = e.
Proof. apply eachTag_processed. Qed.

Lemma classifier_marks (c : container) (e : tag) :
  classifier c e = e \/ processed (classifier c e) = true.
Proof.
  unfold classifier. destruct (processed e) eqn:Hp.
  - left. apply eachTag_processed, Hp.
  - rewrite (eachTag_unprocessed s _ e Hp).
    destruct (find _ _); [right|left]; reflexivity.
Qed.

(** The tag at each position after the call. *)
Lemma nth_error_plainCall (this : list container) (k : nat) :
  nth_error (plainCall s this doc0) k
  = option_map (through classifier k this) (nth_error doc0 k).
Proof.
  rewrite (plainCall_callWith s doc0 this doc0 eq_refl).
  apply (nth_error_callWith classifier classifier_idempotent).
Qed.

Lemma map_attr_plainCall (this : list container) :
  map attr (plainCall s this doc0) = map attr doc0.
Proof.
  apply nth_error_ext. intro k.
  rewrite !nth_error_map, nth_error_plainCall.
  destruct (nth_error doc0 k) as [e|]; simpl; [|reflexivity].
  f_equal. unfold through.
  revert e; induction this as [|c this IH]; intro e; [reflexivity|].
  simpl. rewrite IH.
  destruct (in_dec Nat.eq_dec k c); [apply attr_eachTag|reflexivity].
Qed.

End Classifier.

End CallFacts.

(** X13: a call without random weights writes no weight, calls
    [Math.random] never, and leaves every tag that lies in none of its
    containers as it was. *)
Theorem call_touches_only_its_containers (o : overrides) (random : nat -> Q)
  (this : list Document.container) (doc : Document.document) (n : nat) :
  randomWeights (extend o) = false ->
  let after := Document.tagCloudCall o random this (doc, n) in
  snd after = n
  /\ map attr (fst after) = map attr doc
  /\ forall k, (forall c, In c this -> ~ In k c) ->
       nth_error (fst after) k = nth_error doc k.
Proof.
  intro Hr. cbv zeta. rewrite (CallFacts.tagCloudCall_plain _ _ _ _ _ Hr).
  simpl. split; [reflexivity|]. split.
  - apply CallFacts.map_attr_plainCall.
  - intros k Hk. rewrite CallFacts.nth_error_plainCall.
    destruct (nth_error doc k) as [e|]; simpl; [|reflexivity].
    rewrite CallFacts.through_outside; auto.
Qed.

Lemma call_touches_only_its_containers_witness :
  let doc := [newTag "50"; newTag "11"; newTag "38"; newTag "87"] in
  let after := Document.tagCloudCall (mkOverrides None None None None None)
                 (fun _ => 0) [[1; 2]; [2; 3]]%nat (doc, 0%nat) in
  snd after = 0%nat
  /\ map attr (fst after) = map attr doc
  /\ forall k, (forall c, In c [[1; 2]; [2; 3]]%nat -> ~ In k c) ->
       nth_error (fst after) k = nth_error doc k.
Proof.
  apply (call_touches_only_its_containers
           (mkOverrides None None None None None)).
  reflexivity.
Defined.

(** X14: a call without random weights leaves every tag that carries the
    marker as it was, in whatever containers it lies. *)
Theorem call_skips_marked_tags (o : overrides) (random : nat -> Q)
  (this : list Document.container) (doc : Document.document) (n : nat)
  (k : nat) (e : tag) :
  randomWeights (extend o) = false ->
  nth_error doc k = Some e ->
  processed e = true ->
  nth_error (fst (Document.tagCloudCall o random this (doc, n))) k = Some e.
Proof.
  intros Hr Hk Hp. rewrite (CallFacts.tagCloudCall_plain _ _ _ _ _ Hr).
  simpl. rewrite CallFacts.nth_error_plainCall, Hk. simpl. f_equal.
  apply CallFacts.through_marked; [|exact Hp].
  apply CallFacts.classifier_skips_marked.
Qed.

Lemma call_skips_marked_tags_witness :
  let marked := {| attr := Some "38"%string; processed := true;
                   bands := [] |} in
  nth_error (fst (Document.tagCloudCall (mkOverrides None None None None None)
                    (fun _ => 0) [[0; 1; 2]]%nat
                    ([newTag "11"; marked; newTag "87"], 0%nat))) 1
  = Some marked.
Proof.
  apply call_skips_marked_tags; reflexivity.
Defined.

(** X15: when no tag lies in two of the containers, a call without random
    weights leaves the tags of each container as the classification of
    those tags alone gives them: the containers do not influence each
    other. *)
Theorem disjoint_containers_are_independent (o : overrides)
  (random : nat -> Q) (this : list Document.container)
  (doc : Document.document) (n : nat) (c : Document.container) :
  randomWeights (extend o) = false ->
  ForallOrdPairs (fun c1 c2 => forall i, In i c1 -> ~ In i c2) this ->
  In c this ->
  Document.found (fst (Document.tagCloudCall o random this (doc, n))) c
  = tagCloud (settingsOf (extend o)) (Document.found doc c).
Proof.
  intros Hr Hpairs Hc. rewrite (CallFacts.tagCloudCall_plain _ _ _ _ _ Hr).
  simpl. unfold tagCloud.
  assert (H : forall c0, (forall i, In i c0 -> In i c) ->
            Document.found
              (plainCall (settingsOf (extend o)) this doc) c0
            = map (eachTag (settingsOf (extend o)) (Document.found doc c))
                  (Document.found doc c0)).
  { induction c0 as [|i c0 IH]; intro Hsub; [reflexivity|].
    rewrite !DocumentFacts.found_cons, map_app, IH
      by (intros j Hj; apply Hsub; right; exact Hj).
    f_equal. rewrite CallFacts.nth_error_plainCall.
    destruct (nth_error doc i) as [e|]; simpl; [|reflexivity].
    f_equal.
    apply (CallFacts.through_disjoint
             (classifier (settingsOf (extend o)) doc)
             i this c e Hpairs Hc).
    apply Hsub. left. reflexivity. }
  apply H. auto.
Qed.

Lemma disjoint_containers_are_independent_witness :
  let doc := [newTag "50"; newTag "11"; newTag "38"; newTag "87"] in
  Document.found
    (fst (Document.tagCloudCall (mkOverrides None None None None None)
            (fun _ => 0) [[0; 3]; [1; 2]]%nat (doc, 0%nat))) [1; 2]%nat
  = tagCloud defaults (Document.found doc [1; 2]%nat).
Proof.
  apply (disjoint_containers_are_independent
           (mkOverrides None None None None None)).
  - reflexivity.
  - repeat constructor; simpl; intros i H; lia.
  - right. left. reflexivity.
Defined.

(** X16: a second call without random weights on the same containers
    changes nothing, also when containers share tags. *)
Theorem second_call_changes_nothing (o : overrides) (random : nat -> Q)
  (this : list Document.container) (st : Document.document * nat) :
  randomWeights (extend o) = false ->
  Document.tagCloudCall o random this (Document.tagCloudCall o random this st)
  = Document.tagCloudCall o random this st.
Proof.
  intro Hr. destruct st as [doc n].
  rewrite (CallFacts.tagCloudCall_plain _ _ _ doc _ Hr).
  rewrite (CallFacts.tagCloudCall_plain _ _ _ _ _ Hr).
  f_equal. set (s := settingsOf (extend o)).
  rewrite (CallFacts.plainCall_callWith s doc this
             (plainCall s this doc)
             (CallFacts.map_attr_plainCall s doc this)).
  apply nth_error_ext. intro k.
  rewrite (CallFacts.nth_error_callWith (classifier s doc)
             (CallFacts.classifier_idempotent s doc)).
  rewrite CallFacts.nth_error_plainCall.
  destruct (nth_error doc k) as [e|]; simpl; [|reflexivity].
  f_equal. apply CallFacts.through_idempotent.
  - apply CallFacts.classifier_skips_marked.
  - apply CallFacts.classifier_marks.
Qed.

Lemma second_call_changes_nothing_witness :
  let st := ([newTag "50"; newTag "11"; newTag "38"; newTag "87"], 0%nat) in
  let call := Document.tagCloudCall (mkOverrides None None None None None)
                (fun _ => 0) [[1; 2]; [0; 1; 2; 3]]%nat in
  call (call st) = call st.
Proof.
  apply (second_call_changes_nothing (mkOverrides None None None None None)).
  reflexivity.
Defined.

(** ** Random weights *)

Module RandomFacts.

Import Document DocumentFacts.

Lemma randomWeight_bounds (r : Q) :
  0 <= r -> r < 1 -> (0 <= randomWeight r <= 100)%Z.
Proof.
  intros H0 H1. unfold randomWeight.
  pose proof (Qfloor_le (r * 101)) as Hle.
  pose proof (Qfloor_resp_le 0 (r * 101)) as Hmono.
  split.
  - change 0%Z with (Qfloor 0). apply Hmono. lra.
  - assert (Hlt : inject_Z (Qfloor (r * 101)) < inject_Z 101).
    { apply Qle_lt_trans with (r * 101); [exact Hle|].
      change (inject_Z 101) with 101. lra. }
    rewrite <- Zlt_Qlt in Hlt. lia.
Qed.

Lemma randomWeight_zero (r : Q) :
  0 <= r -> (randomWeight r = 0%Z <-> r < 1 # 101).
Proof.
  intro H0. unfold randomWeight.
  pose proof (Qfloor_le (r * 101)) as Hle.
  pose proof (Qlt_floor (r * 101)) as Hlt.
  split.
  - intro E. rewrite E in Hlt. change (inject_Z (0 + 1)) with 1 in Hlt. lra.
  - intro Hr.
    assert (Hup : inject_Z (Qfloor (r * 101)) < inject_Z 1).
    { apply Qle_lt_trans with (r * 101); [exact Hle|].
      change (inject_Z 1) with 1. lra. }
    rewrite <- Zlt_Qlt in Hup.
    assert (Hlow : (Qfloor 0 <= Qfloor (r * 101))%Z)
      by (apply Qfloor_resp_le; lra).
    change (Qfloor 0) with 0%Z in Hlow. lia.
Qed.

Lemma integerWeight_randomise (r : Q) (e : tag) :
  integerWeight (randomise r e).
Proof.
  exists (randomWeight r). apply WrittenIntegers.read_back.
Qed.

Lemma nth_error_randomiseAll (random : nat -> Q) (doc : document) (n k : nat) :
  nth_error (fst (randomiseAll random doc n)) k
  = option_map (randomise (random (n + k)%nat)) (nth_error doc k).
Proof.
  revert n k; induction doc as [|e r IH]; intros n k.
  - destruct k; reflexivity.
  - simpl. specialize (IH (S n)).
    destruct (randomiseAll random r (S n)) as [r' n'] eqn:E.
    destruct k as [|k]; simpl.
    + rewrite Nat.add_0_r. reflexivity.
    + simpl in IH. rewrite IH. rewrite Nat.add_succ_r. reflexivity.
Qed.

Lemma snd_randomiseAll (random : nat -> Q) (doc : document) (n : nat) :
  snd (randomiseAll random doc n) = (n + List.length doc)%nat.
Proof.
  revert n; induction doc as [|e r IH]; intro n; simpl; [lia|].
  specialize (IH (S n)).
  destruct (randomiseAll random r (S n)) as [r' n']. simpl in *. lia.
Qed.

Lemma length_randomiseAll (random : nat -> Q) (doc : document) (n : nat) :
  List.length (fst (randomiseAll random doc n)) = List.length doc.
Proof.
  revert n; induction doc as [|e r IH]; intro n; simpl; [reflexivity|].
  specialize (IH (S n)).
  destruct (randomiseAll random r (S n)) as [r' n']. simpl in *. lia.
Qed.

Lemma randomiseAll_unmarked_integers (random : nat -> Q) (doc : document)
  (n : nat) :
  Forall (fun e => processed e = false /\ integerWeight e)
         (fst (randomiseAll random doc n)).
Proof.
  revert n; induction doc as [|e r IH]; intro n; simpl; [constructor|].
  specialize (IH (S n)).
  destruct (randomiseAll random r (S n)) as [r' n']. simpl in *.
  constructor; [|exact IH].
  split; [reflexivity|apply integerWeight_randomise].
Qed.

Lemma In_found (doc : document) (c : container) (k : nat) (e : tag) :
  nth_error doc k = Some e -> In k c -> In e (found doc c).
Proof.
  intros Hk Hin. unfold found. apply in_flat_map.
  exists k. split; [exact Hin|]. rewrite Hk. left. reflexivity.
Qed.

Lemma found_incl (doc : document) (c : container) (e : tag) :
  In e (found doc c) -> In e doc.
Proof.
  unfold found. intro H. apply in_flat_map in H.
  destruct H as (k & _ & Hk).
  destruct (nth_error doc k) as [e0|] eqn:E; [|destruct Hk].
  destruct Hk as [<-|[]]. apply (nth_error_In _ _ E).
Qed.

Lemma eachContainer_random (cfg : config) (random : nat -> Q)
  (doc : document) (n : nat) (c : container) :
  randomWeights cfg = true ->
  eachContainer cfg random (doc, n) c
  = (visit (eachTag (settingsOf cfg)
              (found (fst (randomiseAll random doc n)) c)) c
       (fst (randomiseAll random doc n)),
     snd (randomiseAll random doc n)).
Proof.
  intro H. unfold eachContainer. rewrite H. simpl.
  destruct (randomiseAll random doc n); reflexivity.
Qed.

(** What the callback of [this.each] with random weights makes of the tag
    at position [k]. *)
Lemma random_container_position (cfg : config) (random : nat -> Q)
  (doc : document) (n : nat) (c : container) (k : nat) (e : tag) :
  randomWeights cfg = true ->
  (0 < divisions (settingsOf cfg))%nat ->
  nth_error doc k = Some e ->
  exists e',
    nth_error (fst (eachContainer cfg random (doc, n) c)) k = Some e'
    /\ attr e'
       = Some (IntegerToString (randomWeight (random (n + k)%nat)))
    /\ (In k c ->
        processed e' = true
        /\ exists j, (j < divisions (settingsOf cfg))%nat
                     /\ bands e' = bands e ++ [j])
    /\ (~ In k c -> processed e' = false /\ bands e' = bands e).
Proof.
  intros Hr Hd Hk. rewrite (eachContainer_random _ _ _ _ _ Hr). simpl.
  set (doc1 := fst (randomiseAll random doc n)).
  set (tags1 := found doc1 c).
  assert (Hk1 : nth_error doc1 k = Some (randomise (random (n + k)%nat) e)).
  { unfold doc1. rewrite nth_error_randomiseAll, Hk. reflexivity. }
  rewrite nth_error_visit by apply eachTag_idempotent.
  rewrite Hk1. simpl.
  destruct (in_dec Nat.eq_dec k c) as [Hin|Hout].
  - assert (He1 : In (randomise (random (n + k)%nat) e) tags1)
      by (apply (In_found doc1 c k); assumption).
    assert (Hint : Forall integerWeight tags1).
    { apply Forall_forall. intros x Hx. apply found_incl in Hx.
      pose proof (randomiseAll_unmarked_integers random doc n) as Hall.
      rewrite Forall_forall in Hall. apply (Hall x Hx). }
    assert (Hne : tags1 <> []) by (intro E; rewrite E in He1; destruct He1).
    destruct (integer_weights_between tags1 Hne Hint)
      as (lo & hi & Hmin & Hmax & Hle & Hall).
    destruct (Hall _ He1) as (q & Hq & Hlo & Hhi).
    destruct (eachTag_in_range (settingsOf cfg) tags1 lo hi q
                (randomise (random (n + k)%nat) e) Hd eq_refl
                Hmin Hmax Hq Hlo Hhi) as (j & Hj & Heq).
    eexists. split; [reflexivity|]. rewrite Heq. simpl.
    split; [reflexivity|]. split; [|contradiction].
    intros _. split; [reflexivity|]. exists j. auto.
  - eexists. split; [reflexivity|]. simpl.
    split; [reflexivity|]. split; [contradiction|]. auto.
Qed.

Lemma length_eachContainer (cfg : config) (random : nat -> Q)
  (st : document * nat) (c : container) :
  List.length (fst (eachContainer cfg random st c)) = List.length (fst st)
  /\ snd (eachContainer cfg random st c)
     = (snd st + if randomWeights cfg then List.length (fst st) else 0)%nat.
Proof.
  destruct st as [doc n]. destruct (randomWeights cfg) eqn:Hr.
  - rewrite (eachContainer_random _ _ _ _ _ Hr). simpl.
    rewrite length_visit, length_randomiseAll, snd_randomiseAll. auto.
  - rewrite (eachContainer_plain _ _ _ _ _ Hr). simpl.
    rewrite length_visit. auto.
Qed.

End RandomFacts.

(** X17: the random weight is a whole number from 0 to 100, and it is 0
    exactly when [Math.random()] is below 1/101. *)
Theorem random_weight_range (r : Q) :
  0 <= r -> r < 1 ->
  (0 <= Document.randomWeight r <= 100)%Z
  /\ (Document.randomWeight r = 0%Z <-> r < 1 # 101).
Proof.
  intros H0 H1. split.
  - apply RandomFacts.randomWeight_bounds; assumption.
  - apply RandomFacts.randomWeight_zero; assumption.
Qed.

Lemma random_weight_range_witness :
  (0 <= Document.randomWeight (1 # 200) <= 100)%Z
  /\ (Document.randomWeight (1 # 200) = 0%Z <-> 1 # 200 < 1 # 101).
Proof.
  apply random_weight_range.
  - unfold Qle. simpl. lia.
  - unfold Qlt. simpl. lia.
Defined.

(** X18: the loop of lines 79-83 calls [Math.random] once for every tag
    of the document and leaves every tag unmarked, with the classes of its
    bands as before and a weight that is written as a whole number from 0
    to 100 and read back as that number. *)
Theorem randomised_tags (random : nat -> Q) (doc : Document.document)
  (n k : nat) (e : tag) :
  (forall i, 0 <= random i /\ random i < 1) ->
  nth_error doc k = Some e ->
  snd (Document.randomiseAll random doc n) = (n + List.length doc)%nat
  /\ exists e' z,
       nth_error (fst (Document.randomiseAll random doc n)) k = Some e'
       /\ (0 <= z <= 100)%Z
       /\ attr e' = Some (IntegerToString z)
       /\ parseInt10 (attr e') = Fin (inject_Z z)
       /\ eqb (ToNumber (attr e')) (Fin (inject_Z z)) = true
       /\ processed e' = false
       /\ bands e' = bands e.
Proof.
  intros Hrange Hk. split; [apply RandomFacts.snd_randomiseAll|].
  exists (Document.randomise (random (n + k)%nat) e).
  exists (Document.randomWeight (random (n + k)%nat)).
  rewrite RandomFacts.nth_error_randomiseAll, Hk. simpl.
  destruct (Hrange (n + k)%nat) as [H0 H1].
  destruct (WrittenIntegers.read_back
              (Document.randomWeight (random (n + k)%nat))) as [Hp Ht].
  repeat split; auto; apply RandomFacts.randomWeight_bounds; assumption.
Qed.

Lemma randomised_tags_witness :
  let doc := [addClass (newTag "11") 0; newTag "38"] in
  snd (Document.randomiseAll (fun _ => 1 # 2) doc 0)
  = (0 + List.length doc)%nat
  /\ exists e' z,
       nth_error (fst (Document.randomiseAll (fun _ => 1 # 2) doc 0)) 0
       = Some e'
       /\ (0 <= z <= 100)%Z
       /\ attr e' = Some (IntegerToString z)
       /\ parseInt10 (attr e') = Fin (inject_Z z)
       /\ eqb (ToNumber (attr e')) (Fin (inject_Z z)) = true
       /\ processed e' = false
       /\ bands e' = bands (addClass (newTag "11") 0).
Proof.
  apply (randomised_tags (fun _ => 1 # 2)
           [addClass (newTag "11") 0; newTag "38"] 0 0).
  - intros _. split; [unfold Qle|unfold Qlt]; simpl; lia.
  - reflexivity.
Defined.

(** X19: with random weights and at least one class, the callback of
    [this.each] marks every tag of its container and adds the class of one
    band to the classes the tag had, whatever it was before, so that a tag
    classified earlier can end with the classes of two bands; every other
    tag of the document is left unmarked, with the classes it had. *)
Theorem random_weights_reclassify_the_container (cfg : config)
  (random : nat -> Q) (doc : Document.document) (n : nat)
  (c : Document.container) (k : nat) (e : tag) :
  randomWeights cfg = true ->
  (0 < divisions (settingsOf cfg))%nat ->
  nth_error doc k = Some e ->
  exists e',
    nth_error (fst (Document.eachContainer cfg random (doc, n) c)) k = Some e'
    /\ (In k c ->
        processed e' = true
        /\ exists j, (j < divisions (settingsOf cfg))%nat
                     /\ forall i, In i (bands e') <-> In i (bands e) \/ i = j)
    /\ (~ In k c -> processed e' = false /\ bands e' = bands e).
Proof.
  intros Hr Hd Hk.
  destruct (RandomFacts.random_container_position cfg random doc n c k e
              Hr Hd Hk) as (e' & H1 & _ & H2 & H3).
  exists e'. split; [assumption|]. split; [|assumption].
  intro Hin. destruct (H2 Hin) as (Hp & j & Hj & Hb).
  split; [assumption|]. exists j. split; [assumption|].
  intro i. rewrite Hb, in_app_iff. simpl. intuition.
Qed.

Lemma random_weights_reclassify_the_container_witness :
  exists e',
    nth_error
      (fst (Document.eachContainer
              (extend (mkOverrides None None (Some true) None None))
              (fun _ => 1 # 2)
              ([addClass (newTag "11") 0; newTag "38"], 0%nat) [0%nat])) 0
    = Some e'
    /\ (In 0%nat [0%nat] ->
        processed e' = true
        /\ exists j, (j < 3)%nat
                     /\ forall i, In i (bands e')
                                  <-> In i (bands (addClass (newTag "11") 0))
                                      \/ i = j)
    /\ (~ In 0%nat [0%nat] ->
        processed e' = false /\ bands e' = bands (addClass (newTag "11") 0)).
Proof.
  apply (random_weights_reclassify_the_container
           (extend (mkOverrides None None (Some true) None None))
           (fun _ => 1 # 2) [addClass (newTag "11") 0; newTag "38"] 0
           [0%nat] 0 (addClass (newTag "11") 0)).
  - reflexivity.
  - three_bands.
  - reflexivity.
Defined.

(** X20: a call with random weights and at least one class leaves marked
    exactly the tags of the last container: every earlier container has
    its tags unmarked again by the later turns of [this.each]. *)
Theorem random_call_marks_the_last_container (o : overrides)
  (random : nat -> Q) (earlier : list Document.container)
  (last : Document.container) (st : Document.document * nat)
  (k : nat) (e' : tag) :
  randomWeights (extend o) = true ->
  (0 < divisions (settingsOf (extend o)))%nat ->
  nth_error
    (fst (Document.tagCloudCall o random (earlier ++ [last]) st)) k = Some e' ->
  (processed e' = true <-> In k last).
Proof.
  intros Hr Hd. unfold Document.tagCloudCall. rewrite fold_left_app. simpl.
  destruct (fold_left (Document.eachContainer (extend o) random) earlier st)
    as [doc n].
  intro Hk.
  assert (Hlen : (k < List.length doc)%nat).
  { destruct (RandomFacts.length_eachContainer (extend o) random (doc, n) last)
      as [Hl _]. simpl in Hl. rewrite <- Hl.
    apply nth_error_Some. congruence. }
  destruct (nth_error doc k) as [e|] eqn:E;
    [|apply nth_error_None in E; lia].
  destruct (RandomFacts.random_container_position (extend o) random doc n
              last k e Hr Hd E) as (e1 & H1 & _ & Hin & Hout).
  rewrite Hk in H1. injection H1 as <-.
  split.
  - intro Hp. destruct (in_dec Nat.eq_dec k last) as [|Hn]; [assumption|].
    destruct (Hout Hn) as [Hfalse _]. congruence.
  - intro H. apply Hin, H.
Qed.

Lemma random_call_marks_the_last_container_witness :
  processed {| attr := Some "50"%string; processed := false;
               bands := [0%nat] |} = true
  <-> In 0%nat [1%nat].
Proof.
  apply (random_call_marks_the_last_container
           (mkOverrides None None (Some true) None None)
           (fun _ => 1 # 2) [[0%nat]] [1%nat]
           ([newTag "11"; newTag "38"], 0%nat) 0).
  - reflexivity.
  - three_bands.
  - reflexivity.
Defined.

(** X21: a call never changes the number of tags, and it calls
    [Math.random] once per tag of the document for every container when
    random weights are asked for, and never otherwise. *)
Theorem call_counts (o : overrides) (random : nat -> Q)
  (this : list Document.container) (st : Document.document * nat) :
  List.length (fst (Document.tagCloudCall o random this st))
  = List.length (fst st)
  /\ snd (Document.tagCloudCall o random this st)
     = (snd st
        + if randomWeights (extend o)
          then List.length this * List.length (fst st) else 0)%nat.
Proof.
  unfold Document.tagCloudCall. generalize (extend o) as cfg. intro cfg.
  revert st; induction this as [|c this IH]; intro st.
  - cbn [fold_left List.length].
    destruct (randomWeights cfg); split; auto; lia.
  - cbn [fold_left List.length].
    destruct (IH (Document.eachContainer cfg random st c)) as [Hl Hs].
    destruct (RandomFacts.length_eachContainer cfg random st c)
      as [Hl1 Hs1].
    rewrite Hl, Hs, Hl1, Hs1. split; [reflexivity|].
    destruct (randomWeights cfg); lia.
Qed.

(** ** Whole weights *)

(** X22: for a positive number of bands, in a set whose weights are whole
    numbers of magnitude at most 2^53, every item not yet marked is given
    the marker and the class of exactly one band, below the number of
    bands; its weight is not written. *)
Theorem whole_weights_get_one_band (s : settings) (tags : list tag) (e : tag) :
  (0 < divisions s)%nat ->
  Forall (wholeWeightWithin (2 ^ 53)) tags ->
  In e tags ->
  processed e = false ->
  exists j, (j < divisions s)%nat
            /\ eachTag s tags e
               = {| attr := attr e; processed := true;
                    bands := bands e ++ [j] |}.
Proof.
  intros Hd Hwhole He Hp.
  assert (Hne : tags <> []) by (intro E; rewrite E in He; destruct He).
  destruct (whole_weights_ends _ tags Hne Hwhole)
    as (lo & hi & Hmin & Hmax & _ & _ & _ & _ & _ & Hall).
  destruct (Hall e He) as (q & Hq & Hlo & Hhi).
  exact (eachTag_in_range s tags _ _ q e Hd Hp Hmin Hmax Hq Hlo Hhi).
Qed.

Lemma whole_weights_get_one_band_witness :
  exists j, (j < divisions defaults)%nat
            /\ eachTag defaults [newTag "11"; newTag "38"; newTag "87"]
                 (newTag "38")
               = {| attr := attr (newTag "38"); processed := true;
                    bands := bands (newTag "38") ++ [j] |}.
Proof.
  apply (whole_weights_get_one_band defaults
           [newTag "11"; newTag "38"; newTag "87"] (newTag "38")).
  - three_bands.
  - repeat constructor.
    + exists 11%Z. split; [lia|split; reflexivity].
    + exists 38%Z. split; [lia|split; reflexivity].
    + exists 87%Z. split; [lia|split; reflexivity].
  - in_evaluated.
  - reflexivity.
Defined.

(** X23: when all the items carry the same whole number, of magnitude at
    most 2^53, as their weight, then for a positive number of bands the
    range size is 0, every boundary is that weight, and every item not yet
    marked is given band 0. *)
Theorem equal_whole_weights_band_0 (s : settings) (tags : list tag) (z : Z) :
  tags <> [] ->
  (0 < divisions s)%nat ->
  (- 2 ^ 53 <= z <= 2 ^ 53)%Z ->
  (forall e, In e tags ->
     parseInt10 (attr e) = Fin (inject_Z z)
     /\ eqb (ToNumber (attr e)) (Fin (inject_Z z)) = true) ->
  eqv (rangeSize s tags) (Fin 0)
  /\ (forall k, (k <= divisions s)%nat ->
        eqv (JsArray.get (rangeValues s tags) k) (Fin (inject_Z z)))
  /\ forall e, In e tags -> processed e = false ->
       eachTag s tags e = addClass e 0.
Proof.
  intros Hne Hd Hz Hall.
  assert (Hwhole : Forall (wholeWeightWithin (2 ^ 53)) tags).
  { apply Forall_forall. intros e He. exists z. split; [exact Hz|].
    apply Hall, He. }
  destruct (whole_weights_ends _ tags Hne Hwhole)
    as (lo & hi & Hmin & Hmax & _ & _ & _ & (el & Hel & Hwl)
        & (eh & Heh & Hwh) & _).
  assert (Hsame : forall e x, In e tags ->
            eqb (ToNumber (attr e)) (Fin (inject_Z x)) = true -> x = z).
  { intros e x He Hx. destruct (Hall e He) as [_ Hez].
    destruct (eqb_Fin_r _ _ Hx) as (q & Hq & Hqx).
    destruct (eqb_Fin_r _ _ Hez) as (q' & Hq' & Hqz).
    rewrite Hq in Hq'. injection Hq' as <-.
    apply inject_Z_injective. rewrite <- Hqx. exact Hqz. }
  apply (Hsame el lo Hel) in Hwl. apply (Hsame eh hi Heh) in Hwh. subst lo hi.
  split; [|split].
  - rewrite (rangeSize_finite s tags _ _ Hd Hmin Hmax). simpl.
    unfold width, Qdiv. ring.
  - intros k Hk. rewrite get_rangeValues by assumption.
    rewrite (boundary_finite s tags _ _ k Hd Hmin Hmax). simpl.
    apply edge_collapse; [assumption|reflexivity|assumption].
  - intros e He Hp. destruct (Hall e He) as [_ Heq].
    destruct (eqb_Fin_r _ _ Heq) as (q & Hq & Hqz).
    apply (eachTag_lowest s tags _ _ Hd Hmin Hmax q); auto.
    apply Qle_refl.
Qed.

Lemma equal_whole_weights_band_0_witness :
  let tags := [newTag "5"; newTag "5"; newTag "5"] in
  eqv (rangeSize defaults tags) (Fin 0)
  /\ (forall k, (k <= divisions defaults)%nat ->
        eqv (JsArray.get (rangeValues defaults tags) k) (Fin (inject_Z 5)))
  /\ forall e, In e tags -> processed e = false ->
       eachTag defaults tags e = addClass e 0.
Proof.
  apply (equal_whole_weights_band_0 defaults
           [newTag "5"; newTag "5"; newTag "5"] 5).
  - discriminate.
  - three_bands.
  - lia.
  - intros e [<-|[<-|[<-|[]]]]; split; reflexivity.
Defined.
